(** * smc-tools: the netlink socket-diagnostics client (libnetlink.c)

    A shallow embedding of [set_extension], [rtnl_open], [rtnl_close],
    [rtnl_dump], [parse_rtattr] and [sockdiag_send], and the properties of
    them that the specification states.

    Conventions of the embedding.
    - A C [int] is a [Z] kept in the signed 32-bit range by [wrap_s 32]; an
      unsigned w-bit value is a [Z] kept in range by [wrap_u w].
    - Memory is a [list byte]; a pointer into a buffer is the offset ([nat])
      from the start of that buffer.  Multi-byte fields are read in
      little-endian order ([le_combine]).  A read that leaves the modelled
      buffer yields [None] and the operation reports a fault.
    - System calls are answered by an explicit environment: the values the
      kernel returns are inputs of the model and the calls that were made are
      logged, so that "was not attempted" is a statement about the log.
    - What the code prints on stderr is a list of [diag] values. *)

From Stdlib Require Import ZArith List Lia String Strings.Byte Bool.
From coqutil Require Import Byte Word.LittleEndianList.
From stdpp Require Import base list.
Import ListNotations.
Local Open Scope Z_scope.

(* ===================================================================== *)
(** ** Machine integers *)
(* ===================================================================== *)

(** Conversion to an unsigned integer of [w] bits. *)
Definition wrap_u (w z : Z) : Z := z mod 2 ^ w.

(** Conversion to a signed integer of [w] bits (two's complement). *)
Definition wrap_s (w z : Z) : Z := (z + 2 ^ (w - 1)) mod 2 ^ w - 2 ^ (w - 1).

Definition EXIT_SUCCESS : Z := 0.
Definition EXIT_FAILURE : Z := 1.

(** errno values the code tests. *)
Definition EINTR : Z := 4.
Definition EAGAIN : Z := 11.

(** Socket constants of <sys/socket.h> and <linux/netlink.h>. *)
Definition AF_NETLINK : Z := 16.
Definition PF_SMC : Z := 43.
Definition SOCK_RAW : Z := 3.
Definition SOCK_CLOEXEC : Z := 524288.
Definition NETLINK_SOCK_DIAG : Z := 4.
Definition SOL_SOCKET : Z := 1.
Definition SO_SNDBUF : Z := 7.
Definition SO_RCVBUF : Z := 8.
Definition MSG_TRUNC : Z := 32.

(** sizeof(struct sockaddr_nl) *)
Definition SIZEOF_SOCKADDR_NL : Z := 12.

(* ===================================================================== *)
(** ** Diagnostics and system calls *)
(* ===================================================================== *)

(** One value per [fprintf(stderr, ...)] or [perror] of the file.
    [perror s] prints [s] followed by the text of the current [errno]; the
    model keeps that [errno] value. *)
Inductive diag : Type :=
| DiagPerror (prefix : string) (errno : Z)
| DiagWrongAddrLen (addr_len : Z)          (* "Wrong address length %d" *)
| DiagWrongFamily (family : Z)             (* "Wrong address family %d" *)
| DiagRecvError (errno : Z)                (* "netlink receive error %s (%d)" *)
| DiagEOF                                  (* "EOF on netlink" *)
| DiagDumpInterrupted                      (* "Dump interrupted" *)
| DiagErrorTruncated                       (* "ERROR truncated" *)
| DiagMessageTruncated                     (* "Message truncated" *)
| DiagDeficit (len : Z) (rta_len : option Z). (* "!!!Deficit %d, rta_len=%d" *)

(** The system calls of the file, as they appear in the call log. *)
Inductive syscall : Type :=
| SysSocket (domain type protocol : Z)
| SysSetsockopt (fd level optname optval : Z)
| SysBind (fd family groups : Z)
| SysGetsockname (fd : Z)
| SysTime
| SysClose (fd : Z)
| SysSendmsg (fd : Z).

(* ===================================================================== *)
(** ** The extension bitmask: [set_extension] and [sockdiag_send] *)
(* ===================================================================== *)

(** [static int local_ext;  local_ext |= (1<<(ext-1));]
    The state is the value of [local_ext]; it starts at 0.  The shift is
    defined by C for counts 0..30 and produces [INT_MIN] for count 31 on the
    compilers the tool is built with; the theorems below are stated for
    [1 <= ext <= 32]. *)
Definition local_ext_init : Z := 0.

Definition set_extension (ext : Z) (local_ext : Z) : Z :=
  Z.lor local_ext (wrap_s 32 (Z.shiftl 1 (ext - 1))).

(** The mask after the calls [ns], made in this order. *)
Definition set_extensions (ns : list Z) (l : Z) : Z :=
  fold_left (fun acc n => set_extension n acc) ns l.

(** Modelled from the spec: [struct smc_diag_req_v2] is declared in
    smctools_common.h, which is not part of the sources at hand.  The
    specification gives it a protocol family, a command opcode, an 8-bit
    extension field ([diag_ext]) and a full-width (32-bit) extension field
    ([cmd_ext]); every other byte of the record is zero after the [memset]. *)
Record smc_diag_req_v2 : Type := {
  diag_family : Z;
  diag_ext : Z;
  cmd : Z;
  cmd_ext : Z
}.

(** The request record as [sockdiag_send] fills it in. *)
Definition diag_request (local_ext command : Z) : smc_diag_req_v2 :=
  {| diag_family := wrap_u 8 PF_SMC;
     diag_ext := wrap_u 8 local_ext;          (* (char)local_ext into 8 bits *)
     cmd := wrap_u 32 command;
     cmd_ext := wrap_u 32 local_ext |}.

Record send_result : Type := {
  send_status : Z;
  send_request : smc_diag_req_v2;
  send_log : list syscall
}.

(** [sockdiag_send fd cmd]; [sendmsg_ret] is what [sendmsg] returns. *)
Definition sockdiag_send (sendmsg_ret : Z) (local_ext fd command : Z)
  : send_result :=
  let req := diag_request local_ext command in
  if sendmsg_ret <? 0
  then {| send_status := EXIT_FAILURE; send_request := req;
          send_log := [SysSendmsg fd; SysClose fd] |}
  else {| send_status := 0; send_request := req;
          send_log := [SysSendmsg fd] |}.

(* ===================================================================== *)
(** ** The handle: [rtnl_open] and [rtnl_close] *)
(* ===================================================================== *)

Record sockaddr_nl : Type := {
  nl_family : Z;
  nl_pad : Z;
  nl_pid : Z;
  nl_groups : Z
}.

Record rtnl_handle : Type := {
  fd : Z;
  local : sockaddr_nl;
  seq : Z
}.

Definition sockaddr_zero : sockaddr_nl :=
  {| nl_family := 0; nl_pad := 0; nl_pid := 0; nl_groups := 0 |}.

(** What the kernel answers to the calls of one [rtnl_open]. *)
Record open_env : Type := {
  env_errno : Z;              (* errno left by the failing call *)
  env_socket : Z;             (* socket(): descriptor, or -1 *)
  env_sndbuf : Z;             (* setsockopt(SO_SNDBUF) *)
  env_rcvbuf : Z;             (* setsockopt(SO_RCVBUF) *)
  env_bind : Z;               (* bind() *)
  env_getsockname : Z;        (* getsockname() *)
  env_addr_len : Z;           (* addr_len as getsockname leaves it *)
  env_local : sockaddr_nl;    (* rth->local as getsockname leaves it *)
  env_time : Z                (* time(NULL) *)
}.

Record open_result : Type := {
  open_status : Z;
  open_handle : rtnl_handle;
  open_log : list syscall;
  open_stderr : list diag
}.

Definition set_fd (rth : rtnl_handle) (v : Z) : rtnl_handle :=
  {| fd := v; local := local rth; seq := seq rth |}.
Definition set_local (rth : rtnl_handle) (a : sockaddr_nl) : rtnl_handle :=
  {| fd := fd rth; local := a; seq := seq rth |}.
Definition set_seq (rth : rtnl_handle) (v : Z) : rtnl_handle :=
  {| fd := fd rth; local := local rth; seq := v |}.

Definition open_fail (rth : rtnl_handle) (log : list syscall) (d : diag)
  : open_result :=
  {| open_status := EXIT_FAILURE; open_handle := rth; open_log := log;
     open_stderr := [d] |}.

Definition rtnl_open (env : open_env) (rth0 : rtnl_handle) : open_result :=
  let rcvbuf := 1024 * 1024 in
  let sndbuf := 32768 in
  let rth := set_fd rth0 (env_socket env) in
  let log1 := [SysSocket AF_NETLINK (Z.lor SOCK_RAW SOCK_CLOEXEC)
                 NETLINK_SOCK_DIAG] in
  if fd rth <? 0 then
    open_fail rth log1 (DiagPerror "Cannot open netlink socket" (env_errno env))
  else
  let log2 := log1 ++ [SysSetsockopt (fd rth) SOL_SOCKET SO_SNDBUF sndbuf] in
  if env_sndbuf env <? 0 then
    open_fail rth log2 (DiagPerror "SO_SNDBUF" (env_errno env))
  else
  let log3 := log2 ++ [SysSetsockopt (fd rth) SOL_SOCKET SO_RCVBUF rcvbuf] in
  if env_rcvbuf env <? 0 then
    open_fail rth log3 (DiagPerror "SO_RCVBUF" (env_errno env))
  else
  let rth := set_local rth
      {| nl_family := AF_NETLINK; nl_pad := 0; nl_pid := 0; nl_groups := 0 |} in
  let log4 := log3 ++ [SysBind (fd rth) (nl_family (local rth))
                         (nl_groups (local rth))] in
  if env_bind env <? 0 then
    open_fail rth log4 (DiagPerror "Cannot bind netlink socket" (env_errno env))
  else
  let log5 := log4 ++ [SysGetsockname (fd rth)] in
  if env_getsockname env <? 0 then
    open_fail rth log5 (DiagPerror "Cannot getsockname" (env_errno env))
  else
  let rth := set_local rth (env_local env) in
  let addr_len := env_addr_len env in
  if negb (addr_len =? SIZEOF_SOCKADDR_NL) then
    open_fail rth log5 (DiagWrongAddrLen addr_len)
  else
  if negb (nl_family (local rth) =? AF_NETLINK) then
    open_fail rth log5 (DiagWrongFamily (nl_family (local rth)))
  else
  {| open_status := 0;
     open_handle := set_seq rth (wrap_u 32 (env_time env));
     open_log := log5 ++ [SysTime];
     open_stderr := [] |}.

(** Some sub-step of [rtnl_open] fails, according to the answers [env]. *)
Definition open_step_fails (env : open_env) : Prop :=
  env_socket env < 0 \/ env_sndbuf env < 0 \/ env_rcvbuf env < 0 \/
  env_bind env < 0 \/ env_getsockname env < 0 \/
  env_addr_len env <> SIZEOF_SOCKADDR_NL \/
  nl_family (env_local env) <> AF_NETLINK.

(** The handle still holds a descriptor that [rtnl_close] and
    [sockdiag_send] accept (it is non-negative), and the run has not closed
    it. *)
Definition handle_usable (r : open_result) : Prop :=
  0 <= fd (open_handle r) /\
  ~ In (SysClose (fd (open_handle r))) (open_log r).

Definition is_close (c : syscall) : bool :=
  match c with SysClose _ => true | _ => false end.

Definition is_configure_or_bind (c : syscall) : bool :=
  match c with
  | SysSetsockopt _ _ _ _ | SysBind _ _ _ | SysGetsockname _ => true
  | _ => false
  end.

(** [rtnl_close]: the handle afterwards and the calls made. *)
Definition rtnl_close (rth : rtnl_handle) : rtnl_handle * list syscall :=
  if 0 <=? fd rth
  then (set_fd rth (-1), [SysClose (fd rth)])
  else (rth, []).

(* ===================================================================== *)
(** ** Memory reads and the netlink framing macros *)
(* ===================================================================== *)

(** The [n]-byte little-endian value stored at offset [off] of [mem];
    [None] when the read is not inside [mem]. *)
Definition load (n : nat) (mem : list byte) (off : nat) : option Z :=
  let bs := take n (drop off mem) in
  if (length bs =? n)%nat then Some (le_combine bs) else None.

(** <linux/netlink.h>.  [NLMSG_ALIGNTO] is [4U], so the alignment is
    computed on unsigned 32-bit values. *)
Definition NLMSG_ALIGNTO : Z := 4.
Definition NLMSG_ALIGN (len : Z) : Z :=
  Z.land (wrap_u 32 (len + NLMSG_ALIGNTO - 1))
         (wrap_u 32 (Z.lnot (NLMSG_ALIGNTO - 1))).
Definition SIZEOF_NLMSGHDR : Z := 16.
Definition SIZEOF_NLMSGERR : Z := 20.
Definition NLMSG_HDRLEN : Z := wrap_s 32 (NLMSG_ALIGN SIZEOF_NLMSGHDR).
Definition NLMSG_LENGTH (len : Z) : Z := len + NLMSG_HDRLEN.
Definition NLMSG_ERROR : Z := 2.
Definition NLMSG_DONE : Z := 3.
Definition NLM_F_DUMP_INTR : Z := 16.

(** <linux/rtnetlink.h>: the same scheme for attribute records. *)
Definition RTA_ALIGNTO : Z := 4.
Definition RTA_ALIGN (len : Z) : Z :=
  Z.land (wrap_u 32 (len + RTA_ALIGNTO - 1))
         (wrap_u 32 (Z.lnot (RTA_ALIGNTO - 1))).
Definition SIZEOF_RTATTR : Z := 4.

(** Outcome of a loop of the model: a value, a read outside the buffer, or
    exhausted fuel (shown below never to happen with the fuel supplied). *)
Inductive run (A : Type) : Type :=
| Ret (a : A)
| Fault
| NoFuel.
Arguments Ret {A} a.
Arguments Fault {A}.
Arguments NoFuel {A}.

(* ===================================================================== *)
(** ** [parse_rtattr] *)
(* ===================================================================== *)

(** [tb] is the caller's table: entry [t] is [None] for a null pointer and
    [Some off] for a pointer to the record at offset [off] of the attribute
    region.  [rta] is the offset of the current record, [len] the C [int]
    counting the bytes left. *)
Definition tb_store (max : Z) (tb : list (option nat)) (type : Z) (rta : nat)
  : list (option nat) :=
  if type <=? max then
    match tb !! Z.to_nat type with
    | Some None => <[Z.to_nat type := Some rta]> tb
    | _ => tb
    end
  else tb.

Fixpoint rta_walk (fuel : nat) (max : Z) (mem : list byte)
    (tb : list (option nat)) (rta : nat) (len : Z)
  : run (list (option nat) * nat * Z) :=
  match fuel with
  | O => NoFuel
  | S fuel' =>
    (* RTA_OK(rta, len) *)
    if len <? SIZEOF_RTATTR then Ret (tb, rta, len) else
    match load 2 mem rta with
    | None => Fault
    | Some rta_len =>
      if (rta_len <? SIZEOF_RTATTR) || (len <? rta_len) then Ret (tb, rta, len)
      else
      match load 2 mem (rta + 2) with
      | None => Fault
      | Some type =>
        (* RTA_NEXT(rta, len) *)
        rta_walk fuel' max mem (tb_store max tb type rta)
          (rta + Z.to_nat (RTA_ALIGN rta_len))%nat
          (wrap_s 32 (wrap_u 32 len - RTA_ALIGN rta_len))
      end
    end
  end.

Record rtattr_result : Type := {
  pr_tb : list (option nat);
  pr_stderr : list diag
}.

(** [parse_rtattr tb max rta len]: [mem] is the memory from [rta] on. *)
Definition parse_rtattr (max : Z) (mem : list byte) (len : Z)
  : run rtattr_result :=
  let tb0 := replicate (Z.to_nat (max + 1)) (None : option nat) in
  match rta_walk (S (Z.to_nat len)) max mem tb0 0%nat len with
  | Ret (tb, rta, len') =>
      Ret {| pr_tb := tb;
             pr_stderr := if len' =? 0 then []
                          else [DiagDeficit len' (load 2 mem rta)] |}
  | Fault => Fault
  | NoFuel => NoFuel
  end.

(* ===================================================================== *)
(** ** [rtnl_dump] *)
(* ===================================================================== *)

(** A netlink message as the handler sees it through the pointer [h]. *)
Record nlmsg : Type := {
  nlmsg_type : Z;
  nlmsg_flags : Z;
  nlmsg_seq : Z;
  nlmsg_pid : Z;
  nlmsg_data : list byte
}.

Definition BUFSIZE : nat := Z.to_nat 32768.

Definition msg_at (buf : list byte) (h : nat) (len : Z) : option nlmsg :=
  ty ← load 2 buf (h + 4);
  fl ← load 2 buf (h + 6);
  sq ← load 4 buf (h + 8);
  pd ← load 4 buf (h + 12);
  Some {| nlmsg_type := ty; nlmsg_flags := fl; nlmsg_seq := sq;
          nlmsg_pid := pd;
          nlmsg_data := take (Z.to_nat (len - SIZEOF_NLMSGHDR))
                             (drop (h + 16) buf) |}.

(** The variables of [rtnl_dump] that live across a [goto again], and what
    the run has produced so far: the handler calls, in order, and stderr.
    The handler is the caller's; the model records the message each call
    is given and takes the handler to leave [buf] and [errno] alone. *)
Record dump_state : Type := {
  ds_buf : list byte;
  ds_h : nat;
  ds_found_done : bool;
  ds_errno : Z;
  ds_calls : list nlmsg;
  ds_stderr : list diag
}.

Definition say (d : diag) (st : dump_state) : dump_state :=
  {| ds_buf := ds_buf st; ds_h := ds_h st; ds_found_done := ds_found_done st;
     ds_errno := ds_errno st; ds_calls := ds_calls st;
     ds_stderr := ds_stderr st ++ [d] |}.

Definition call_handler (m : nlmsg) (h' : nat) (st : dump_state) : dump_state :=
  {| ds_buf := ds_buf st; ds_h := h'; ds_found_done := ds_found_done st;
     ds_errno := ds_errno st; ds_calls := ds_calls st ++ [m];
     ds_stderr := ds_stderr st |}.

Definition set_found_done (st : dump_state) : dump_state :=
  {| ds_buf := ds_buf st; ds_h := ds_h st; ds_found_done := true;
     ds_errno := ds_errno st; ds_calls := ds_calls st;
     ds_stderr := ds_stderr st |}.

Definition reset_h (st : dump_state) : dump_state :=
  {| ds_buf := ds_buf st; ds_h := 0%nat; ds_found_done := ds_found_done st;
     ds_errno := ds_errno st; ds_calls := ds_calls st;
     ds_stderr := ds_stderr st |}.

Definition set_errno (e : Z) (st : dump_state) : dump_state :=
  {| ds_buf := ds_buf st; ds_h := ds_h st; ds_found_done := ds_found_done st;
     ds_errno := e; ds_calls := ds_calls st; ds_stderr := ds_stderr st |}.

(** [recvmsg] stores at most [sizeof(buf)] bytes at the start of [buf]. *)
Definition store_buf (data : list byte) (st : dump_state) : dump_state :=
  {| ds_buf := data ++ drop (length data) (ds_buf st); ds_h := ds_h st;
     ds_found_done := ds_found_done st; ds_errno := ds_errno st;
     ds_calls := ds_calls st; ds_stderr := ds_stderr st |}.

(** How the [while (NLMSG_OK(h, msglen))] loop is left. *)
Inductive walk_exit : Type :=
| WalkLeft                    (* condition false, or [break] *)
| WalkReturn (status : Z)     (* [return] from inside the loop *)
| WalkFault
| WalkNoFuel.

Fixpoint nlmsg_walk (fuel : nat) (msglen : Z) (st : dump_state)
  : walk_exit * dump_state :=
  match fuel with
  | O => (WalkNoFuel, st)
  | S fuel' =>
    (* NLMSG_OK(h, msglen) *)
    if msglen <? SIZEOF_NLMSGHDR then (WalkLeft, st) else
    match load 4 (ds_buf st) (ds_h st) with
    | None => (WalkFault, st)
    | Some len =>
      if (len <? SIZEOF_NLMSGHDR) || (wrap_u 32 msglen <? len)
      then (WalkLeft, st) else
      match load 2 (ds_buf st) (ds_h st + 6), load 2 (ds_buf st) (ds_h st + 4)
      with
      | Some flags, Some type =>
        let st := if Z.land flags NLM_F_DUMP_INTR =? 0 then st
                  else say DiagDumpInterrupted st in
        if type =? NLMSG_DONE then (WalkLeft, set_found_done st)
        else if type =? NLMSG_ERROR then
          if len <? NLMSG_LENGTH SIZEOF_NLMSGERR
          then (WalkReturn EXIT_FAILURE, say DiagErrorTruncated st)
          else (WalkReturn EXIT_FAILURE,
                say (DiagPerror "RTNETLINK answers" (ds_errno st)) st)
        else
          match msg_at (ds_buf st) (ds_h st) len with
          | None => (WalkFault, st)
          | Some m =>
            (* the handler is called on h; then h = NLMSG_NEXT(h, msglen) *)
            nlmsg_walk fuel'
              (wrap_s 32 (wrap_u 32 msglen - NLMSG_ALIGN len))
              (call_handler m (ds_h st + Z.to_nat (NLMSG_ALIGN len))%nat st)
          end
      | _, _ => (WalkFault, st)
      end
    end
  end.

(** What one call of [recvmsg] does: it fails with an errno, or it stores a
    datagram and sets [msg_flags]. *)
Inductive recv_event : Type :=
| RecvFail (errno : Z)
| RecvData (data : list byte) (msg_flags : Z).

(** How a run of [rtnl_dump] ends: it returns, or it is blocked in a
    [recvmsg] that nothing answers, or it read outside [buf]. *)
Inductive outcome : Type :=
| Returned (status : Z)
| Blocked
| Faulted
| OutOfFuel.

Record dump_result : Type := {
  dr_outcome : outcome;
  dr_state : dump_state;
  dr_rest : list recv_event
}.

(** The code from the label [again] on; one event is consumed per pass. *)
Fixpoint rtnl_dump_again (evs : list recv_event) (st : dump_state)
  : dump_result :=
  match evs with
  | [] => {| dr_outcome := Blocked; dr_state := st; dr_rest := [] |}
  | RecvFail e :: evs' =>
      let st := set_errno e st in
      if (e =? EINTR) || (e =? EAGAIN) then rtnl_dump_again evs' st
      else {| dr_outcome := Returned EXIT_FAILURE;
              dr_state := say (DiagRecvError e) st; dr_rest := evs' |}
  | RecvData data flags :: evs' =>
      let data := take BUFSIZE data in
      let msglen := wrap_s 32 (Z.of_nat (length data)) in
      if msglen =? 0 then
        {| dr_outcome := Returned EXIT_FAILURE; dr_state := say DiagEOF st;
           dr_rest := evs' |}
      else
      match nlmsg_walk (S (Z.to_nat msglen)) msglen (store_buf data st) with
      | (WalkReturn s, st) =>
          {| dr_outcome := Returned s; dr_state := st; dr_rest := evs' |}
      | (WalkFault, st) =>
          {| dr_outcome := Faulted; dr_state := st; dr_rest := evs' |}
      | (WalkNoFuel, st) =>
          {| dr_outcome := OutOfFuel; dr_state := st; dr_rest := evs' |}
      | (WalkLeft, st) =>
          if negb (Z.land flags MSG_TRUNC =? 0) then
            rtnl_dump_again evs' (say DiagMessageTruncated st)
          else if negb (ds_found_done st) then
            rtnl_dump_again evs' (reset_h st)
          else
            {| dr_outcome := Returned EXIT_SUCCESS; dr_state := st;
               dr_rest := evs' |}
      end
  end.

(** The state at the label [again] when [rtnl_dump] is entered: [buf] is
    zeroed, [h] points to its start, [found_done] is 0.  [errno0] is the
    value of [errno] at entry. *)
Definition dump_init (errno0 : Z) : dump_state :=
  {| ds_buf := replicate BUFSIZE Byte.x00; ds_h := 0%nat;
     ds_found_done := false; ds_errno := errno0; ds_calls := [];
     ds_stderr := [] |}.

Definition rtnl_dump (errno0 : Z) (evs : list recv_event) : dump_result :=
  rtnl_dump_again evs (dump_init errno0).

(* ===================================================================== *)
(** ** Wire format of the messages and records the kernel sends *)
(* ===================================================================== *)

(** The definitions of this part describe inputs; the code above never
    uses them. *)

(** Zero bytes that pad [n] bytes to a multiple of four. *)
Definition padding (n : nat) : list byte :=
  replicate ((4 - n mod 4) mod 4)%nat Byte.x00.

Definition nlmsg_len (m : nlmsg) : Z :=
  SIZEOF_NLMSGHDR + Z.of_nat (length (nlmsg_data m)).

(** [struct nlmsghdr] (len, type, flags, seq, pid), the payload, padding. *)
Definition encode_nlmsg (m : nlmsg) : list byte :=
  le_split 4 (nlmsg_len m) ++ le_split 2 (nlmsg_type m)
  ++ le_split 2 (nlmsg_flags m) ++ le_split 4 (nlmsg_seq m)
  ++ le_split 4 (nlmsg_pid m)
  ++ nlmsg_data m ++ padding (length (nlmsg_data m)).

Definition encode_nlmsgs (ms : list nlmsg) : list byte :=
  concat (map encode_nlmsg ms).

(** The header fields fit their C types. *)
Definition wf_nlmsg (m : nlmsg) : Prop :=
  0 <= nlmsg_type m < 2 ^ 16 /\ 0 <= nlmsg_flags m < 2 ^ 16 /\
  0 <= nlmsg_seq m < 2 ^ 32 /\ 0 <= nlmsg_pid m < 2 ^ 32.

(** A message that is neither "done" nor "error". *)
Definition is_data (m : nlmsg) : Prop :=
  nlmsg_type m <> NLMSG_DONE /\ nlmsg_type m <> NLMSG_ERROR.

Definition data_msg (m : nlmsg) : Prop := wf_nlmsg m /\ is_data m.

(** The "Dump interrupted" lines a run prints for the messages [ms]. *)
Definition intr_diags (ms : list nlmsg) : list diag :=
  flat_map (fun m => if Z.land (nlmsg_flags m) NLM_F_DUMP_INTR =? 0
                     then [] else [DiagDumpInterrupted]) ms.

(** The state after the "Dump interrupted" test on a message with the
    flags [flags]: one more line on stderr, or nothing. *)
Definition intr_step (flags : Z) (st : dump_state) : dump_state :=
  if Z.land flags NLM_F_DUMP_INTR =? 0 then st else say DiagDumpInterrupted st.

(** The state after the handler has been called on the messages [ms], which
    lie in the buffer from [ds_h st] on. *)
Definition handled (ms : list nlmsg) (st : dump_state) : dump_state :=
  {| ds_buf := ds_buf st;
     ds_h := (ds_h st + length (encode_nlmsgs ms))%nat;
     ds_found_done := ds_found_done st;
     ds_errno := ds_errno st;
     ds_calls := ds_calls st ++ ms;
     ds_stderr := ds_stderr st ++ intr_diags ms |}.

(** A datagram as [recvmsg] hands it over: the bytes that fit the buffer,
    and [MSG_TRUNC] exactly when some did not fit. *)
Definition deliver (dgram : list byte) : recv_event :=
  RecvData (take BUFSIZE dgram)
           (if (BUFSIZE <? length dgram)%nat then MSG_TRUNC else 0).

(** [data_stream evs ms]: the receives [evs] deliver the data messages
    [ms], whole, in untruncated datagrams that fit the buffer; receives
    interrupted by a signal or that would block may occur in between. *)
Inductive data_stream : list recv_event -> list nlmsg -> Prop :=
| ds_nil : data_stream [] []
| ds_retry e evs ms :
    e = EINTR \/ e = EAGAIN ->
    data_stream evs ms ->
    data_stream (RecvFail e :: evs) ms
| ds_dgram ms1 flags evs ms :
    ms1 <> [] ->
    Forall data_msg ms1 ->
    (length (encode_nlmsgs ms1) <= BUFSIZE)%nat ->
    Z.land flags MSG_TRUNC = 0 ->
    data_stream evs ms ->
    data_stream (RecvData (encode_nlmsgs ms1) flags :: evs) (ms1 ++ ms).

(** An attribute record: [struct rtattr] (len, type) and its value. *)
Record rtattr : Type := {
  rta_type : Z;
  rta_data : list byte
}.

Definition rta_len (r : rtattr) : Z :=
  SIZEOF_RTATTR + Z.of_nat (length (rta_data r)).

Definition encode_rtattr (r : rtattr) : list byte :=
  le_split 2 (rta_len r) ++ le_split 2 (rta_type r)
  ++ rta_data r ++ padding (length (rta_data r)).

Definition encode_rtattrs (rs : list rtattr) : list byte :=
  concat (map encode_rtattr rs).

Definition wf_rtattr (r : rtattr) : Prop :=
  0 <= rta_type r < 2 ^ 16 /\ rta_len r < 2 ^ 16.

(** Offset of the first record of type [t] in [encode_rtattrs rs] laid out
    from offset [off]. *)
Fixpoint first_loc (t : Z) (rs : list rtattr) (off : nat) : option nat :=
  match rs with
  | [] => None
  | r :: rs' =>
      if rta_type r =? t then Some off
      else first_loc t rs' (off + length (encode_rtattr r))%nat
  end.

(** The table after the records [rs], laid out from offset [off], were
    offered to [tb_store] one after the other. *)
Fixpoint tb_fill (max : Z) (tb : list (option nat)) (rs : list rtattr)
    (off : nat) : list (option nat) :=
  match rs with
  | [] => tb
  | r :: rs' =>
      tb_fill max (tb_store max tb (rta_type r) off) rs'
        (off + length (encode_rtattr r))%nat
  end.

(** RTA_OK fails on [tail] with [len] bytes left. *)
Definition rta_not_ok (tail : list byte) (len : Z) : Prop :=
  len < SIZEOF_RTATTR \/
  exists l, load 2 tail 0 = Some l /\ (l < SIZEOF_RTATTR \/ len < l).

(* ===================================================================== *)
(** ** Concrete inputs used by the examples *)
(* ===================================================================== *)

Definition env_sndbuf_fails : open_env :=
  {| env_errno := 105; env_socket := 3; env_sndbuf := -1; env_rcvbuf := 0;
     env_bind := 0; env_getsockname := 0; env_addr_len := 12;
     env_local := {| nl_family := 16; nl_pad := 0; nl_pid := 4711;
                     nl_groups := 0 |};
     env_time := 1600000000 |}.

Definition handle0 : rtnl_handle :=
  {| fd := 0; local := sockaddr_zero; seq := 0 |}.

Definition env_socket_fails : open_env :=
  {| env_errno := 24; env_socket := -1; env_sndbuf := 0; env_rcvbuf := 0;
     env_bind := 0; env_getsockname := 0; env_addr_len := 12;
     env_local := {| nl_family := 16; nl_pad := 0; nl_pid := 4711;
                     nl_groups := 0 |};
     env_time := 1600000000 |}.


Definition msg (ty sq : Z) (payload : list byte) : nlmsg :=
  {| nlmsg_type := ty; nlmsg_flags := 0; nlmsg_seq := sq; nlmsg_pid := 0;
     nlmsg_data := payload |}.

(** Two data messages (type 20 is SOCK_DIAG_BY_FAMILY), and "done". *)
Definition ex_d1 : nlmsg := msg 20 1 [Byte.x01; Byte.x02].
Definition ex_d2 : nlmsg := msg 20 2 [Byte.x03].
Definition ex_done : nlmsg := msg NLMSG_DONE 4 [].

(** An error message with a complete [struct nlmsgerr]: the error code -13
    and the header of the request it answers. *)
Definition ex_err : nlmsg :=
  msg NLMSG_ERROR 3 (le_split 4 (-13) ++ take 16 (encode_nlmsg (msg 20 3 []))).

(** An error message whose payload holds the error code only. *)
Definition ex_err_short : nlmsg := msg NLMSG_ERROR 3 (le_split 4 (-13)).

(** A datagram of 32784 bytes: a 16-byte message and one of 32768 bytes. *)
Definition ex_small : nlmsg := msg 20 1 [].
Definition ex_big : nlmsg := msg 20 2 (replicate (Z.to_nat 32752) Byte.x00).
Definition ex_long_dgram : list byte := encode_nlmsgs [ex_small; ex_big].

(** A datagram of 48 bytes: a data message whose 16-byte payload is itself
    laid out like a message header, and "done". *)
Definition ex_inner : nlmsg := msg 21 99 [].
Definition ex_outer : nlmsg := msg 20 3 (encode_nlmsg ex_inner).
Definition ex_next_dgram : list byte := encode_nlmsgs [ex_outer; ex_done].

(** A datagram of 32816 bytes in which a data message and a 32768-byte
    message follow the "done" message, and a datagram of 32 bytes with two
    data messages. *)
Definition ex_after : nlmsg := msg 20 7 [].
Definition ex_done_dgram : list byte :=
  encode_nlmsgs [ex_small; ex_done; ex_after; ex_big].
Definition ex_m8 : nlmsg := msg 20 8 [].
Definition ex_m9 : nlmsg := msg 20 9 [].
Definition ex_short_dgram : list byte := encode_nlmsgs [ex_m8; ex_m9].

(** Attribute records: two of type 1 around one of type 2. *)
Definition ex_r1 : rtattr := {| rta_type := 1; rta_data := [Byte.x01] |}.
Definition ex_r2 : rtattr :=
  {| rta_type := 2;
     rta_data := [Byte.x01; Byte.x01; Byte.x01; Byte.x01] |}.
Definition ex_r1' : rtattr := {| rta_type := 1; rta_data := [Byte.x05] |}.

(* ===================================================================== *)
(** ** Definitions for further properties *)
(* ===================================================================== *)

(** The calls of a run of [rtnl_open] on which every sub-step succeeds;
    [sock] is the descriptor that [socket] returned. *)
Definition open_calls (sock : Z) : list syscall :=
  [SysSocket AF_NETLINK (Z.lor SOCK_RAW SOCK_CLOEXEC) NETLINK_SOCK_DIAG;
   SysSetsockopt sock SOL_SOCKET SO_SNDBUF 32768;
   SysSetsockopt sock SOL_SOCKET SO_RCVBUF (1024 * 1024);
   SysBind sock AF_NETLINK 0;
   SysGetsockname sock;
   SysTime].

(** How often [close] was called on the descriptor [x]. *)
Definition count_close (x : Z) (log : list syscall) : nat :=
  length (List.filter (fun c => match c with
                                | SysClose y => y =? x
                                | _ => false
                                end) log).

Definition env_ok : open_env :=
  {| env_errno := 0; env_socket := 3; env_sndbuf := 0; env_rcvbuf := 0;
     env_bind := 0; env_getsockname := 0; env_addr_len := 12;
     env_local := {| nl_family := 16; nl_pad := 0; nl_pid := 4711;
                     nl_groups := 0 |};
     env_time := 1600000000 |}.


(** A record as it lies in a region that ends right behind its value,
    without the padding. *)
Definition encode_rtattr_unpadded (r : rtattr) : list byte :=
  le_split 2 (rta_len r) ++ le_split 2 (rta_type r) ++ rta_data r.

(** Every entry of [tb] that is set points to a record that passed RTA_OK:
    its type is the index, its length field is at least 4, it ends inside
    the first [total] bytes of [mem], and it starts on a 4-byte boundary. *)
Definition entries_sound (mem : list byte) (total : Z)
    (tb : list (option nat)) : Prop :=
  forall t off, tb !! t = Some (Some off) ->
    load 2 mem (off + 2) = Some (Z.of_nat t) /\
    (exists l, load 2 mem off = Some l /\ 4 <= l /\ Z.of_nat off + l <= total) /\
    (Z.of_nat off) mod 4 = 0.

(** A receive that the code retries: it failed with EINTR or EAGAIN. *)
Definition is_retry (ev : recv_event) : bool :=
  match ev with
  | RecvFail e => (e =? EINTR) || (e =? EAGAIN)
  | RecvData _ _ => false
  end.

(** The receives without the ones that are retried. *)
Definition drop_retries (evs : list recv_event) : list recv_event :=
  List.filter (fun ev => negb (is_retry ev)) evs.

(** A diagnostic without the [errno] that [perror] appends. *)
Definition blank_errno (d : diag) : diag :=
  match d with
  | DiagPerror s _ => DiagPerror s 0
  | _ => d
  end.

(** Two states of [rtnl_dump] that agree on everything but [errno] and the
    [errno] shown in [perror] lines. *)
Definition same_run (st st' : dump_state) : Prop :=
  ds_buf st = ds_buf st' /\ ds_h st = ds_h st' /\
  ds_found_done st = ds_found_done st' /\ ds_calls st = ds_calls st' /\
  map blank_errno (ds_stderr st) = map blank_errno (ds_stderr st').

(** The diagnostics that go with a failure of [rtnl_dump]. *)
Definition fatal_diag (d : diag) : Prop :=
  match d with
  | DiagRecvError _ | DiagEOF | DiagErrorTruncated => True
  | DiagPerror s _ => s = "RTNETLINK answers"%string
  | _ => False
  end.

(** The transport did not flag the datagram as truncated. *)
Definition untruncated (ev : recv_event) : Prop :=
  match ev with
  | RecvFail _ => True
  | RecvData _ flags => Z.land flags MSG_TRUNC = 0
  end.

(** NLMSG_OK fails on the bytes [tail], all that is left of a datagram. *)
Definition nlmsg_not_ok (tail : list byte) : Prop :=
  Z.of_nat (length tail) < SIZEOF_NLMSGHDR \/
  exists l, load 4 tail 0 = Some l /\
            (l < SIZEOF_NLMSGHDR \/ Z.of_nat (length tail) < l).

(** A "done" message that carries the NLM_F_DUMP_INTR flag. *)
Definition ex_done_intr : nlmsg :=
  {| nlmsg_type := NLMSG_DONE; nlmsg_flags := NLM_F_DUMP_INTR; nlmsg_seq := 4;
     nlmsg_pid := 0; nlmsg_data := [] |}.

(* ===================================================================== *)
(** * Properties *)
(* ===================================================================== *)

(** ** Machine integers *)

Lemma wrap_s_small z : - 2 ^ 31 <= z < 2 ^ 31 -> wrap_s 32 z = z.
Proof.
  intros H. unfold wrap_s. change (32 - 1) with 31.
  rewrite Z.mod_small; lia.
Qed.

Lemma wrap_u_small w z : 0 <= z < 2 ^ w -> wrap_u w z = z.
Proof. intros H. unfold wrap_u. apply Z.mod_small; lia. Qed.

Lemma wrap_s_mod z : wrap_s 32 z mod 2 ^ 32 = z mod 2 ^ 32.
Proof.
  unfold wrap_s. change (32 - 1) with 31.
  rewrite (Z.mod_eq (z + 2 ^ 31) (2 ^ 32)) by lia.
  replace (z + 2 ^ 31 - 2 ^ 32 * ((z + 2 ^ 31) / 2 ^ 32) - 2 ^ 31)
    with (z + (- ((z + 2 ^ 31) / 2 ^ 32)) * 2 ^ 32) by lia.
  apply Z.mod_add. lia.
Qed.

Lemma testbit_wrap_s z i :
  0 <= i < 32 -> Z.testbit (wrap_s 32 z) i = Z.testbit z i.
Proof.
  intros Hi.
  rewrite <- (Z.mod_pow2_bits_low (wrap_s 32 z) 32 i) by lia.
  rewrite wrap_s_mod. apply Z.mod_pow2_bits_low. lia.
Qed.

Lemma testbit_wrap_u w z i :
  0 <= i < w -> Z.testbit (wrap_u w z) i = Z.testbit z i.
Proof. intros Hi. unfold wrap_u. apply Z.mod_pow2_bits_low. lia. Qed.

Lemma testbit_wrap_u_high w z i :
  0 <= w <= i -> Z.testbit (wrap_u w z) i = false.
Proof. intros Hi. unfold wrap_u. apply Z.mod_pow2_bits_high. lia. Qed.

Lemma lor_below a b k :
  0 <= k -> 0 <= a < 2 ^ k -> 0 <= b < 2 ^ k -> 0 <= Z.lor a b < 2 ^ k.
Proof.
  intros Hk Ha Hb.
  assert (Hnn : 0 <= Z.lor a b) by (apply Z.lor_nonneg; lia).
  split; [assumption|].
  destruct (Z.eq_dec a 0) as [->|Ha0]; [now rewrite Z.lor_0_l|].
  destruct (Z.eq_dec b 0) as [->|Hb0]; [now rewrite Z.lor_0_r|].
  destruct (Z.eq_dec (Z.lor a b) 0) as [->|Hnz]; [lia|].
  apply Z.log2_lt_pow2; [lia|].
  rewrite Z.log2_lor by lia.
  apply Z.max_lub_lt; apply Z.log2_lt_pow2; lia.
Qed.

(** ** The extension bitmask *)

(** One call sets bit [ext - 1] and leaves the other bits as they were. *)
Lemma set_extension_bits ext l i :
  1 <= ext <= 32 -> 0 <= i < 32 ->
  Z.testbit (set_extension ext l) i = Z.testbit l i || (i =? ext - 1).
Proof.
  intros He Hi. unfold set_extension.
  rewrite Z.lor_spec, testbit_wrap_s by lia.
  rewrite Z.shiftl_spec by lia. f_equal.
  destruct (Z.eqb_spec i (ext - 1)) as [->|Hne].
  - now rewrite Z.sub_diag.
  - destruct (Z.ltb_spec i (ext - 1)).
    + apply Z.testbit_neg_r. lia.
    + apply Z.bits_above_log2; simpl; lia.
Qed.

Lemma set_extensions_bits ns : forall l i,
  Forall (fun n => 1 <= n <= 32) ns -> 0 <= i < 32 ->
  Z.testbit (set_extensions ns l) i
  = Z.testbit l i || existsb (fun n => i =? n - 1) ns.
Proof.
  induction ns as [|n ns IH]; intros l i Hns Hi; simpl.
  - now rewrite orb_false_r.
  - inversion Hns; subst.
    unfold set_extensions in *. simpl. rewrite IH by assumption.
    rewrite set_extension_bits by assumption.
    now rewrite orb_assoc.
Qed.

Lemma set_extension_low ext l :
  1 <= ext <= 8 -> 0 <= l < 2 ^ 8 -> 0 <= set_extension ext l < 2 ^ 8.
Proof.
  intros He Hl. unfold set_extension.
  assert (Hs : 0 < Z.shiftl 1 (ext - 1) < 2 ^ 8).
  { rewrite Z.shiftl_1_l. split; [apply Z.pow_pos_nonneg; lia|].
    apply Z.pow_lt_mono_r; lia. }
  rewrite wrap_s_small by lia.
  apply lor_below; lia.
Qed.

Lemma set_extensions_low ns : forall l,
  Forall (fun n => 1 <= n <= 8) ns -> 0 <= l < 2 ^ 8 ->
  0 <= set_extensions ns l < 2 ^ 8.
Proof.
  induction ns as [|n ns IH]; intros l Hns Hl; simpl; [assumption|].
  inversion Hns; subst. apply IH; [assumption|].
  now apply set_extension_low.
Qed.

(** C6 (as amended).  A call [set_extension n] with [1 <= n <= 32] sets bit
    [n - 1] of the mask and keeps the other bits, so the calls accumulate:
    after the calls [ns] bit [i] is set exactly when [i + 1] is among [ns].
    The request that [sockdiag_send] builds afterwards carries all 32 bits of
    the mask in [cmd_ext] and the low 8 bits of it in [diag_ext], whose
    bits from 8 up are clear; when every index is at most 8 both fields
    equal the mask.  Indices 1 and 3 give the mask 5 in both fields. *)
Theorem set_extension_request_fields (ns : list Z) (sendmsg_ret fd command : Z) :
  Forall (fun n => 1 <= n <= 32) ns ->
  let mask := set_extensions ns local_ext_init in
  let req := send_request (sockdiag_send sendmsg_ret mask fd command) in
  (forall l n i, 1 <= n <= 32 -> 0 <= i < 32 ->
     Z.testbit (set_extension n l) i = Z.testbit l i || (i =? n - 1)) /\
  (forall i, 0 <= i < 32 ->
     Z.testbit mask i = existsb (fun n => i =? n - 1) ns) /\
  (forall i, 0 <= i < 32 -> Z.testbit (cmd_ext req) i = Z.testbit mask i) /\
  (forall i, 0 <= i < 8 -> Z.testbit (diag_ext req) i = Z.testbit mask i) /\
  (forall i, 8 <= i -> Z.testbit (diag_ext req) i = false) /\
  (Forall (fun n => n <= 8) ns -> diag_ext req = mask /\ cmd_ext req = mask) /\
  set_extensions [1; 3] local_ext_init = 5.
Proof.
  intros Hns mask req.
  assert (Hreq : req = diag_request mask command).
  { unfold req, sockdiag_send. now destruct (sendmsg_ret <? 0). }
  rewrite Hreq. simpl.
  split; [intros; now apply set_extension_bits|].
  split.
  { intros i Hi. unfold mask. rewrite set_extensions_bits by assumption.
    unfold local_ext_init. now rewrite Z.bits_0. }
  split; [intros; apply testbit_wrap_u; lia|].
  split; [intros; apply testbit_wrap_u; lia|].
  split; [intros; apply testbit_wrap_u_high; lia|].
  split; [|reflexivity].
  intros Hlow.
  assert (Hm : 0 <= mask < 2 ^ 8).
  { apply set_extensions_low; [|unfold local_ext_init; lia].
    rewrite Forall_forall in *. intros n Hn.
    specialize (Hns n Hn). specialize (Hlow n Hn). simpl in *. lia. }
  split; apply wrap_u_small; lia.
Qed.

Lemma set_extension_request_fields_witness :
  Forall (fun n => 1 <= n <= 32) [1; 3] /\
  diag_ext (send_request (sockdiag_send 0 (set_extensions [1; 3] 0) 3 1)) = 5 /\
  cmd_ext (send_request (sockdiag_send 0 (set_extensions [1; 3] 0) 3 1)) = 5.
Proof.
  assert (H : Forall (fun n => 1 <= n <= 32) [1; 3])
    by (repeat constructor; lia).
  split; [exact H|].
  destruct (set_extension_request_fields [1; 3] 0 3 1 H)
    as (_ & _ & _ & _ & _ & Hboth & Hmask).
  destruct Hboth as [Hd Hc]; [repeat constructor; lia|].
  split; [exact (eq_trans Hd Hmask) | exact (eq_trans Hc Hmask)].
Defined.

(** C6 (as stated) fails: after [set_extension 9] the mask is 256, the
    full-width field carries 256 and the 8-bit field carries 0. *)
Lemma set_extension_9_not_in_diag_ext :
  let mask := set_extensions [9] local_ext_init in
  let req := send_request (sockdiag_send 0 mask 3 1) in
  mask = 256 /\ cmd_ext req = 256 /\ diag_ext req = 0 /\ diag_ext req <> mask.
Proof. vm_compute. repeat split; congruence. Qed.

(** [sockdiag_send] closes the descriptor when [sendmsg] fails, and only
    then. *)
Lemma sockdiag_send_failure sendmsg_ret l fd0 command :
  sendmsg_ret < 0 ->
  send_status (sockdiag_send sendmsg_ret l fd0 command) = EXIT_FAILURE /\
  send_log (sockdiag_send sendmsg_ret l fd0 command)
  = [SysSendmsg fd0; SysClose fd0].
Proof.
  intros H. unfold sockdiag_send.
  destruct (Z.ltb_spec sendmsg_ret 0); [now split | lia].
Qed.

(** ** [rtnl_open] and [rtnl_close] *)

(** No path of [rtnl_open] closes a descriptor, and the handle's descriptor
    is what [socket] returned. *)
Lemma rtnl_open_fd env rth :
  fd (open_handle (rtnl_open env rth)) = env_socket env /\
  forallb (fun c => negb (is_close c)) (open_log (rtnl_open env rth)) = true.
Proof.
  unfold rtnl_open. simpl.
  destruct (env_socket env <? 0); [now split|].
  destruct (env_sndbuf env <? 0); [now split|].
  destruct (env_rcvbuf env <? 0); [now split|].
  destruct (env_bind env <? 0); [now split|].
  destruct (env_getsockname env <? 0); [now split|].
  destruct (negb (env_addr_len env =? SIZEOF_SOCKADDR_NL)); [now split|].
  simpl.
  destruct (negb (nl_family (env_local env) =? AF_NETLINK)); now split.
Qed.

Lemma rtnl_open_status env rth :
  open_step_fails env ->
  open_status (rtnl_open env rth) = EXIT_FAILURE /\
  exists d, open_stderr (rtnl_open env rth) = [d].
Proof.
  intros Hf. unfold rtnl_open. simpl.
  destruct (Z.ltb_spec (env_socket env) 0); [split; eauto|].
  destruct (Z.ltb_spec (env_sndbuf env) 0); [split; eauto|].
  destruct (Z.ltb_spec (env_rcvbuf env) 0); [split; eauto|].
  destruct (Z.ltb_spec (env_bind env) 0); [split; eauto|].
  destruct (Z.ltb_spec (env_getsockname env) 0); [split; eauto|].
  destruct (Z.eqb_spec (env_addr_len env) SIZEOF_SOCKADDR_NL);
    simpl; [|split; eauto].
  destruct (Z.eqb_spec (nl_family (env_local env)) AF_NETLINK);
    simpl; [|split; eauto].
  unfold open_step_fails in Hf. lia.
Qed.

Lemma forallb_not_close_In log x :
  forallb (fun c => negb (is_close c)) log = true -> ~ In (SysClose x) log.
Proof.
  intros H Hin. rewrite forallb_forall in H. specialize (H _ Hin).
  discriminate.
Qed.

(** C7 (as amended).  When a sub-step of [rtnl_open] fails, the function
    prints one diagnostic and returns [EXIT_FAILURE].  The handle's
    descriptor is then what [socket] returned and no path closes it: it is
    negative when the socket creation is what failed, and it is the open
    descriptor, still usable, when a later sub-step failed. *)
Theorem rtnl_open_failure (env : open_env) (rth : rtnl_handle) :
  open_step_fails env ->
  let r := rtnl_open env rth in
  open_status r = EXIT_FAILURE /\
  (exists d, open_stderr r = [d]) /\
  fd (open_handle r) = env_socket env /\
  (env_socket env < 0 -> fd (open_handle r) < 0) /\
  (0 <= env_socket env -> handle_usable r).
Proof.
  intros Hf r. subst r.
  destruct (rtnl_open_status env rth Hf) as [Hs Hd].
  destruct (rtnl_open_fd env rth) as [Hfd Hlog].
  repeat split; try assumption.
  - lia.
  - lia.
  - now apply forallb_not_close_In.
Qed.

Lemma rtnl_open_failure_witness :
  open_step_fails env_sndbuf_fails /\
  open_status (rtnl_open env_sndbuf_fails handle0) = EXIT_FAILURE /\
  fd (open_handle (rtnl_open env_sndbuf_fails handle0)) = 3.
Proof.
  assert (H : open_step_fails env_sndbuf_fails)
    by (unfold open_step_fails; simpl; lia).
  split; [exact H|].
  destruct (rtnl_open_failure env_sndbuf_fails handle0 H)
    as (Hs & _ & Hfd & _).
  split; [exact Hs | exact Hfd].
Defined.

(** C7 (as stated) fails: when [setsockopt(SO_SNDBUF)] fails on descriptor
    3, [rtnl_open] returns [EXIT_FAILURE] with descriptor 3 left in the
    handle, open and never closed. *)
Lemma rtnl_open_sndbuf_failure_leaves_fd :
  let r := rtnl_open env_sndbuf_fails handle0 in
  open_status r = EXIT_FAILURE /\
  open_stderr r = [DiagPerror "SO_SNDBUF" 105] /\
  open_log r = [SysSocket 16 524291 4; SysSetsockopt 3 1 7 32768] /\
  fd (open_handle r) = 3 /\
  handle_usable r.
Proof.
  vm_compute. repeat split; try reflexivity; try discriminate.
  intros [H|[H|[]]]; discriminate.
Qed.

(** C8.  When [socket] fails, [rtnl_open] returns [EXIT_FAILURE] after that
    one call: the call log holds the [socket] call only, so no buffer size
    was configured and nothing was bound. *)
Theorem rtnl_open_socket_failure (env : open_env) (rth : rtnl_handle) :
  env_socket env < 0 ->
  let r := rtnl_open env rth in
  open_status r = EXIT_FAILURE /\
  open_log r = [SysSocket AF_NETLINK (Z.lor SOCK_RAW SOCK_CLOEXEC)
                  NETLINK_SOCK_DIAG] /\
  existsb is_configure_or_bind (open_log r) = false /\
  open_stderr r = [DiagPerror "Cannot open netlink socket" (env_errno env)].
Proof.
  intros H r. subst r. unfold rtnl_open. simpl.
  destruct (Z.ltb_spec (env_socket env) 0); [|lia].
  repeat split.
Qed.

Lemma rtnl_open_socket_failure_witness :
  env_socket env_socket_fails < 0 /\
  open_status (rtnl_open env_socket_fails handle0) = EXIT_FAILURE /\
  open_log (rtnl_open env_socket_fails handle0) = [SysSocket 16 524291 4].
Proof.
  assert (H : env_socket env_socket_fails < 0) by (simpl; lia).
  split; [exact H|].
  destruct (rtnl_open_socket_failure env_socket_fails handle0 H)
    as (Hs & Hl & _).
  split; [exact Hs | exact Hl].
Defined.

(** When no sub-step fails [rtnl_open] returns 0 and every call was made. *)
Lemma rtnl_open_success env rth :
  ~ open_step_fails env ->
  open_status (rtnl_open env rth) = 0 /\
  length (open_log (rtnl_open env rth)) = 6%nat /\
  seq (open_handle (rtnl_open env rth)) = wrap_u 32 (env_time env).
Proof.
  intros Hf. unfold open_step_fails in Hf. unfold rtnl_open. simpl.
  destruct (Z.ltb_spec (env_socket env) 0); [lia|].
  destruct (Z.ltb_spec (env_sndbuf env) 0); [lia|].
  destruct (Z.ltb_spec (env_rcvbuf env) 0); [lia|].
  destruct (Z.ltb_spec (env_bind env) 0); [lia|].
  destruct (Z.ltb_spec (env_getsockname env) 0); [lia|].
  destruct (Z.eqb_spec (env_addr_len env) SIZEOF_SOCKADDR_NL); [|lia].
  simpl.
  destruct (Z.eqb_spec (nl_family (env_local env)) AF_NETLINK); [|lia].
  simpl. repeat split.
Qed.

(** C9.  [rtnl_close] calls [close] exactly when the descriptor is
    non-negative and then stores -1; on a negative descriptor it changes
    nothing and calls nothing.  A second close is therefore a no-op: the
    handle after two closes is the handle after one. *)
Theorem rtnl_close_idempotent (rth : rtnl_handle) :
  (0 <= fd rth ->
     rtnl_close rth = (set_fd rth (-1), [SysClose (fd rth)])) /\
  (fd rth < 0 -> rtnl_close rth = (rth, [])) /\
  fd (fst (rtnl_close rth)) < 0 /\
  rtnl_close (fst (rtnl_close rth)) = (fst (rtnl_close rth), []).
Proof.
  unfold rtnl_close.
  destruct (Z.leb_spec 0 (fd rth)) as [H|H]; simpl.
  - repeat split; intros; try reflexivity; lia.
  - destruct (Z.leb_spec 0 (fd rth)); [lia|].
    repeat split; intros; try reflexivity; lia.
Qed.

Lemma rtnl_close_idempotent_witness :
  rtnl_close {| fd := 3; local := sockaddr_zero; seq := 0 |}
  = ({| fd := -1; local := sockaddr_zero; seq := 0 |}, [SysClose 3]) /\
  rtnl_close {| fd := -1; local := sockaddr_zero; seq := 0 |}
  = ({| fd := -1; local := sockaddr_zero; seq := 0 |}, []).
Proof.
  destruct (rtnl_close_idempotent
              {| fd := 3; local := sockaddr_zero; seq := 0 |})
    as (Hopen & _ & _ & _).
  destruct (rtnl_close_idempotent
              {| fd := -1; local := sockaddr_zero; seq := 0 |})
    as (_ & Hclosed & _ & _).
  split; [apply Hopen | apply Hclosed]; simpl; lia.
Defined.

Ltac Zify.zify_post_hook ::= Z.to_euclidean_division_equations.

(** ** Memory reads *)

Lemma load_skip (a b : list byte) n off k :
  k = (length a + off)%nat -> load n (a ++ b) k = load n b off.
Proof. intros ->. unfold load. now rewrite drop_app_add. Qed.

Lemma load_le_split n z (rest : list byte) :
  load n (le_split n z ++ rest) 0 = Some (z mod 2 ^ (Z.of_nat n * 8)).
Proof.
  unfold load. rewrite drop_0.
  rewrite take_app_length' by now rewrite length_le_split.
  rewrite length_le_split, Nat.eqb_refl.
  now rewrite le_combine_split.
Qed.

Lemma load_short n (mem : list byte) off :
  (0 < n)%nat -> (length mem < off + n)%nat -> load n mem off = None.
Proof.
  intros Hn H. unfold load.
  destruct (Nat.eqb_spec (length (take n (drop off mem))) n) as [E|]; [|easy].
  rewrite length_take, length_drop in E. lia.
Qed.

Lemma load_inside n (mem : list byte) off :
  (off + n <= length mem)%nat -> exists v, load n mem off = Some v.
Proof.
  intros H. unfold load.
  destruct (Nat.eqb_spec (length (take n (drop off mem))) n) as [E|E];
    [eauto|].
  rewrite length_take, length_drop in E. lia.
Qed.

(** ** Alignment *)

Lemma align4 x :
  0 <= x <= 2 ^ 32 - 4 ->
  Z.land (wrap_u 32 (x + 4 - 1)) (wrap_u 32 (Z.lnot (4 - 1)))
  = 4 * ((x + 3) / 4).
Proof.
  intros Hx. unfold wrap_u.
  rewrite Z.mod_small by lia.
  replace (x + 4 - 1) with (x + 3) by lia.
  change (Z.lnot (4 - 1) mod 2 ^ 32) with (Z.shiftl (Z.ones 30) 2).
  rewrite Z.mul_comm. change 4 with (2 ^ 2).
  rewrite <- Z.shiftr_div_pow2, <- Z.shiftl_mul_pow2 by lia.
  apply Z.bits_inj'. intros i Hi.
  rewrite Z.land_spec, !Z.shiftl_spec by lia.
  destruct (Z.ltb_spec i 2).
  - rewrite !(Z.testbit_neg_r _ (i - 2)) by lia. apply andb_false_r.
  - rewrite Z.shiftr_spec by lia. replace (i - 2 + 2) with i by lia.
    destruct (Z.ltb_spec i 32).
    + rewrite Z.ones_spec_low by lia. apply andb_true_r.
    + rewrite Z.ones_spec_high by lia. rewrite andb_false_r.
      symmetry. apply Z.bits_above_log2; [lia|].
      apply Z.lt_le_trans with 32; [|lia].
      apply Z.log2_lt_pow2; lia.
Qed.

Lemma RTA_ALIGN_eq x : 0 <= x <= 2 ^ 32 - 4 -> RTA_ALIGN x = 4 * ((x + 3) / 4).
Proof. apply align4. Qed.

Lemma NLMSG_ALIGN_eq x :
  0 <= x <= 2 ^ 32 - 4 -> NLMSG_ALIGN x = 4 * ((x + 3) / 4).
Proof. apply align4. Qed.

Lemma length_padding n : length (padding n) = ((4 - n mod 4) mod 4)%nat.
Proof. unfold padding. apply length_replicate. Qed.

(** Payload and padding together fill whole 4-byte units. *)
Lemma padded_length n :
  Z.of_nat (n + length (padding n)) = 4 * ((Z.of_nat n + 3) / 4).
Proof.
  rewrite length_padding.
  pose proof (Nat.mod_upper_bound n 4 ltac:(lia)) as Hb.
  pose proof (Nat.div_mod_eq n 4) as Hn.
  set (q := (n / 4)%nat) in *. set (r := (n mod 4)%nat) in *.
  assert (Hr : r = 0%nat \/ r = 1%nat \/ r = 2%nat \/ r = 3%nat) by lia.
  destruct Hr as [-> | [-> | [-> | ->]]];
    cbn [Nat.sub Nat.modulo Nat.divmod fst snd]; cbn; lia.
Qed.

(** ** [parse_rtattr] *)

Lemma length_encode_rtattr r :
  Z.of_nat (length (encode_rtattr r)) = 4 * ((rta_len r + 3) / 4).
Proof.
  unfold encode_rtattr, rta_len, SIZEOF_RTATTR.
  rewrite !length_app, !length_le_split.
  pose proof (padded_length (length (rta_data r))) as Hp.
  rewrite Nat2Z.inj_add in Hp. lia.
Qed.

Lemma length_encode_rtattr_align r :
  wf_rtattr r ->
  length (encode_rtattr r) = Z.to_nat (RTA_ALIGN (rta_len r)) /\
  SIZEOF_RTATTR <= rta_len r <= RTA_ALIGN (rta_len r).
Proof.
  intros [_ Hl].
  assert (H4 : SIZEOF_RTATTR <= rta_len r) by (unfold rta_len; lia).
  unfold SIZEOF_RTATTR in *.
  rewrite RTA_ALIGN_eq by lia.
  pose proof (length_encode_rtattr r). split; lia.
Qed.

Lemma load_rta_len r rest :
  wf_rtattr r -> load 2 (encode_rtattr r ++ rest) 0 = Some (rta_len r).
Proof.
  intros [_ Hl]. unfold encode_rtattr. rewrite <- !app_assoc.
  rewrite load_le_split. f_equal. apply Z.mod_small.
  unfold rta_len, SIZEOF_RTATTR in *. simpl. lia.
Qed.

Lemma load_rta_type r rest :
  wf_rtattr r -> load 2 (encode_rtattr r ++ rest) 2 = Some (rta_type r).
Proof.
  intros [Ht _]. unfold encode_rtattr. rewrite <- !app_assoc.
  rewrite (load_skip _ _ 2 0) by now rewrite length_le_split.
  rewrite load_le_split. f_equal. apply Z.mod_small. simpl. lia.
Qed.

Lemma length_encode_rtattrs_cons r rs :
  length (encode_rtattrs (r :: rs))
  = (length (encode_rtattr r) + length (encode_rtattrs rs))%nat.
Proof. unfold encode_rtattrs. simpl. now rewrite length_app. Qed.

(** The walk over well-formed records: it consumes them all and offers
    each one to [tb_store]. *)
Lemma rta_walk_records max rs : forall fuel pre rest tb r,
  Forall wf_rtattr rs ->
  0 <= r ->
  Z.of_nat (length (encode_rtattrs rs)) + r < 2 ^ 31 ->
  (Z.to_nat (Z.of_nat (length (encode_rtattrs rs)) + r) < fuel)%nat ->
  exists fuel',
    (Z.to_nat r < fuel')%nat /\
    rta_walk fuel max (pre ++ encode_rtattrs rs ++ rest) tb (length pre)
      (Z.of_nat (length (encode_rtattrs rs)) + r)
    = rta_walk fuel' max (pre ++ encode_rtattrs rs ++ rest)
        (tb_fill max tb rs (length pre))
        (length pre + length (encode_rtattrs rs))%nat r.
Proof.
  induction rs as [|a rs IH]; intros fuel pre rest tb r Hwf Hr Hlen Hfuel.
  - exists fuel. simpl in *. split; [lia|]. now rewrite Nat.add_0_r.
  - inversion Hwf as [|? ? Ha Hrs]; subst.
    destruct (length_encode_rtattr_align a Ha) as [Hla Hb].
    unfold SIZEOF_RTATTR in *.
    rewrite length_encode_rtattrs_cons in *.
    set (n := length (encode_rtattr a)) in *.
    set (m := length (encode_rtattrs rs)) in *.
    assert (Hal : RTA_ALIGN (rta_len a) = Z.of_nat n) by lia.
    destruct fuel as [|fuel]; [lia|].
    cbn [rta_walk]. unfold SIZEOF_RTATTR.
    destruct (Z.ltb_spec (Z.of_nat (n + m) + r) 4) as [Hlt|_]; [lia|].
    assert (Hmem : pre ++ encode_rtattrs (a :: rs) ++ rest
                   = pre ++ encode_rtattr a ++ (encode_rtattrs rs ++ rest)).
    { unfold encode_rtattrs. simpl. now rewrite <- app_assoc. }
    rewrite Hmem.
    rewrite (load_skip pre _ 2 0) by lia. rewrite load_rta_len by assumption.
    rewrite (load_skip pre _ 2 2) by lia. rewrite load_rta_type by assumption.
    destruct (Z.ltb_spec (rta_len a) 4) as [Hlt|_]; [lia|].
    destruct (Z.ltb_spec (Z.of_nat (n + m) + r) (rta_len a)) as [Hlt|_];
      [lia|].
    cbn [orb].
    rewrite Hal.
    replace (wrap_s 32 (wrap_u 32 (Z.of_nat (n + m) + r) - Z.of_nat n))
      with (Z.of_nat m + r).
    2:{ rewrite wrap_u_small by lia. rewrite wrap_s_small by lia. lia. }
    rewrite Nat2Z.id.
    replace (pre ++ encode_rtattr a ++ encode_rtattrs rs ++ rest)
      with ((pre ++ encode_rtattr a) ++ encode_rtattrs rs ++ rest)
      by now rewrite <- app_assoc.
    replace (length pre + n)%nat with (length (pre ++ encode_rtattr a))
      by now rewrite length_app.
    destruct (IH fuel (pre ++ encode_rtattr a) rest
                (tb_store max tb (rta_type a) (length pre)) r)
      as (fuel' & Hf' & Heq); try assumption; try lia.
    exists fuel'. split; [assumption|].
    rewrite Heq. cbn [tb_fill]. fold n.
    rewrite !length_app. fold n. f_equal. lia.
Qed.

Lemma length_tb_store max tb ty off :
  length (tb_store max tb ty off) = length tb.
Proof.
  unfold tb_store. destruct (ty <=? max); [|reflexivity].
  destruct (tb !! Z.to_nat ty) as [[?|]|]; try reflexivity.
  apply length_insert.
Qed.

(** [tb_store] at the entry of its own type: a null entry receives the
    location, any other entry stays. *)
Lemma tb_store_same max (tb : list (option nat)) ty off :
  0 <= ty <= max ->
  tb_store max tb ty off !! Z.to_nat ty
  = match tb !! Z.to_nat ty with
    | Some None => Some (Some off)
    | o => o
    end.
Proof.
  intros Ht. unfold tb_store.
  destruct (Z.leb_spec ty max); [|lia].
  destruct (tb !! Z.to_nat ty) as [[x|]|] eqn:E; try assumption.
  apply list_lookup_insert_eq. eapply lookup_lt_Some. eassumption.
Qed.

Lemma tb_store_other max (tb : list (option nat)) ty off t :
  0 <= ty -> 0 <= t -> ty <> t ->
  tb_store max tb ty off !! Z.to_nat t = tb !! Z.to_nat t.
Proof.
  intros Hty Ht Hne. unfold tb_store.
  destruct (ty <=? max); [|reflexivity].
  destruct (tb !! Z.to_nat ty) as [[x|]|]; try reflexivity.
  apply list_lookup_insert_ne. lia.
Qed.

(** First occurrence wins: after the records [rs] an entry that was null
    holds the location of the first record of its type, and an entry that
    was set keeps its value. *)
Lemma tb_fill_lookup max rs : forall (tb : list (option nat)) off t,
  Forall wf_rtattr rs -> 0 <= t <= max ->
  tb_fill max tb rs off !! Z.to_nat t
  = match tb !! Z.to_nat t with
    | Some None => Some (first_loc t rs off)
    | o => o
    end.
Proof.
  induction rs as [|a rs IH]; intros tb off t Hwf Ht; simpl.
  - now destruct (tb !! Z.to_nat t) as [[?|]|].
  - inversion Hwf as [|? ? [Hta _] Hrs]; subst.
    rewrite IH by assumption.
    destruct (Z.eqb_spec (rta_type a) t) as [->|Hne].
    + rewrite tb_store_same by assumption.
      now destruct (tb !! Z.to_nat t) as [[?|]|].
    + rewrite tb_store_other by lia.
      reflexivity.
Qed.

Lemma length_tb_fill max rs : forall tb off,
  length (tb_fill max tb rs off) = length tb.
Proof.
  induction rs as [|a rs IH]; intros tb off; simpl; [reflexivity|].
  now rewrite IH, length_tb_store.
Qed.

Lemma first_loc_app t rs1 : forall off r rs2,
  Forall (fun x => rta_type x <> t) rs1 -> rta_type r = t ->
  first_loc t (rs1 ++ r :: rs2) off
  = Some (off + length (encode_rtattrs rs1))%nat.
Proof.
  induction rs1 as [|a rs1 IH]; intros off r rs2 Hno Hr;
    cbn [first_loc app].
  - destruct (Z.eqb_spec (rta_type r) t); [|contradiction].
    f_equal. unfold encode_rtattrs. simpl. lia.
  - apply Forall_cons in Hno as [Hna Hno].
    destruct (Z.eqb_spec (rta_type a) t); [contradiction|].
    rewrite IH by auto. f_equal.
    rewrite length_encode_rtattrs_cons. lia.
Qed.

(** [parse_rtattr] on a region made of well-formed records followed by
    bytes on which RTA_OK fails (possibly none). *)
Lemma parse_rtattr_layout max rs tail :
  Forall wf_rtattr rs ->
  rta_not_ok tail (Z.of_nat (length tail)) ->
  Z.of_nat (length (encode_rtattrs rs ++ tail)) < 2 ^ 31 ->
  parse_rtattr max (encode_rtattrs rs ++ tail)
    (Z.of_nat (length (encode_rtattrs rs ++ tail)))
  = Ret {| pr_tb := tb_fill max (replicate (Z.to_nat (max + 1)) None) rs 0;
           pr_stderr := match tail with
                        | [] => []
                        | _ => [DiagDeficit (Z.of_nat (length tail))
                                  (load 2 tail 0)]
                        end |}.
Proof.
  intros Hwf Htail Hlen. unfold parse_rtattr.
  rewrite length_app in *. rewrite Nat2Z.inj_add in *.
  set (tb0 := replicate (Z.to_nat (max + 1)) None).
  destruct (rta_walk_records max rs
              (S (Z.to_nat (Z.of_nat (length (encode_rtattrs rs))
                            + Z.of_nat (length tail))))
              [] tail tb0 (Z.of_nat (length tail)) Hwf)
    as (fuel' & Hf' & Heq); try lia.
  simpl app in Heq. simpl length in Heq. rewrite Heq. clear Heq.
  destruct fuel' as [|fuel']; [lia|].
  assert (Hload : load 2 (encode_rtattrs rs ++ tail)
                    (0 + length (encode_rtattrs rs)) = load 2 tail 0)
    by (apply load_skip; lia).
  assert (Hret : rta_walk (S fuel') max (encode_rtattrs rs ++ tail)
                   (tb_fill max tb0 rs 0) (0 + length (encode_rtattrs rs))
                   (Z.of_nat (length tail))
                 = Ret (tb_fill max tb0 rs 0, (0 + length (encode_rtattrs rs))%nat,
                        Z.of_nat (length tail))).
  { cbn [rta_walk].
    destruct (Z.ltb_spec (Z.of_nat (length tail)) SIZEOF_RTATTR) as [|Hge];
      [reflexivity|].
    destruct Htail as [Hlt | (l & Hl & Hbad)]; [lia|].
    rewrite Hload, Hl.
    destruct (Z.ltb_spec l SIZEOF_RTATTR); [reflexivity|].
    destruct (Z.ltb_spec (Z.of_nat (length tail)) l); [reflexivity|lia]. }
  rewrite Hret, Hload.
  destruct tail as [|b tail]; [reflexivity|].
  destruct (Z.eqb_spec (Z.of_nat (length (b :: tail))) 0) as [E|_];
    [simpl in E; lia | reflexivity].
Qed.

(** C4.  In a region that holds two well-formed records of one type [t]
    (with [t <= max], and the first of them the first record of that type),
    [parse_rtattr] stores the location of the first one under [t], which is
    not the location of the second; every entry of the table holds the
    first record of its type, so later duplicates leave no trace, and they
    cause no diagnostic. *)
Theorem parse_rtattr_first_wins (max : Z) (rs1 rs2 rs3 : list rtattr)
    (r1 r2 : rtattr) (tail : list byte) :
  let rs := rs1 ++ r1 :: rs2 ++ r2 :: rs3 in
  let mem := encode_rtattrs rs ++ tail in
  Forall wf_rtattr rs ->
  rta_type r2 = rta_type r1 ->
  rta_type r1 <= max ->
  Forall (fun r => rta_type r <> rta_type r1) rs1 ->
  rta_not_ok tail (Z.of_nat (length tail)) ->
  Z.of_nat (length mem) < 2 ^ 31 ->
  exists tb err,
    parse_rtattr max mem (Z.of_nat (length mem))
    = Ret {| pr_tb := tb; pr_stderr := err |} /\
    tb !! Z.to_nat (rta_type r1) = Some (Some (length (encode_rtattrs rs1))) /\
    (length (encode_rtattrs rs1)
     < length (encode_rtattrs (rs1 ++ r1 :: rs2)))%nat /\
    (forall t, 0 <= t <= max -> tb !! Z.to_nat t = Some (first_loc t rs 0)) /\
    (tail = [] -> err = []).
Proof.
  intros rs mem Hwf Hsame Hmax Hfirst Htail Hlen.
  assert (Hr1 : wf_rtattr r1).
  { unfold rs in Hwf. rewrite Forall_app in Hwf. destruct Hwf as [_ H].
    now inversion H. }
  assert (Hall : forall t, 0 <= t <= max ->
            tb_fill max (replicate (Z.to_nat (max + 1)) None) rs 0
              !! Z.to_nat t = Some (first_loc t rs 0)).
  { intros t Ht. rewrite tb_fill_lookup by assumption.
    rewrite lookup_replicate_2 by lia. reflexivity. }
  eexists _, _. split; [apply parse_rtattr_layout; assumption|].
  split; [|split; [|split]].
  - destruct Hr1 as [Ht _]. rewrite Hall by lia.
    unfold rs. rewrite first_loc_app by auto. reflexivity.
  - destruct (length_encode_rtattr_align r1 Hr1) as [_ Hb].
    pose proof (length_encode_rtattr r1) as Hl.
    unfold encode_rtattrs. rewrite map_app, concat_app, length_app.
    simpl. rewrite length_app. unfold SIZEOF_RTATTR in *. lia.
  - exact Hall.
  - now intros ->.
Qed.

(** C5.  When the region ends in bytes that do not form a complete record
    (RTA_OK fails on them), [parse_rtattr] prints the "Deficit" diagnostic
    and still returns a table: the very table it builds from the records
    in front of the tail alone, in which every type up to [max] points to
    the first valid record of that type. *)
Theorem parse_rtattr_malformed_tail (max : Z) (rs : list rtattr)
    (tail : list byte) :
  0 <= max ->
  Forall wf_rtattr rs ->
  tail <> [] ->
  rta_not_ok tail (Z.of_nat (length tail)) ->
  Z.of_nat (length (encode_rtattrs rs ++ tail)) < 2 ^ 31 ->
  exists tb,
    parse_rtattr max (encode_rtattrs rs ++ tail)
      (Z.of_nat (length (encode_rtattrs rs ++ tail)))
    = Ret {| pr_tb := tb;
             pr_stderr := [DiagDeficit (Z.of_nat (length tail))
                             (load 2 tail 0)] |} /\
    parse_rtattr max (encode_rtattrs rs)
      (Z.of_nat (length (encode_rtattrs rs)))
    = Ret {| pr_tb := tb; pr_stderr := [] |} /\
    length tb = Z.to_nat (max + 1) /\
    (forall t, 0 <= t <= max -> tb !! Z.to_nat t = Some (first_loc t rs 0)).
Proof.
  intros Hmax Hwf Hne Htail Hlen.
  exists (tb_fill max (replicate (Z.to_nat (max + 1)) None) rs 0).
  split; [|split; [|split]].
  - rewrite parse_rtattr_layout by assumption.
    destruct tail; [contradiction | reflexivity].
  - pose proof (parse_rtattr_layout max rs [] Hwf) as H.
    rewrite app_nil_r in H. apply H.
    + left. simpl. unfold SIZEOF_RTATTR. lia.
    + rewrite length_app in Hlen. lia.
  - now rewrite length_tb_fill, length_replicate.
  - intros t Ht. rewrite tb_fill_lookup by assumption.
    rewrite lookup_replicate_2 by lia. reflexivity.
Qed.

(** ** [rtnl_dump]: reading one message *)

Lemma length_encode_nlmsg m :
  Z.of_nat (length (encode_nlmsg m)) = 4 * ((nlmsg_len m + 3) / 4).
Proof.
  unfold encode_nlmsg, nlmsg_len, SIZEOF_NLMSGHDR.
  rewrite !length_app, !length_le_split.
  pose proof (padded_length (length (nlmsg_data m))) as Hp.
  rewrite Nat2Z.inj_add in Hp. lia.
Qed.

Lemma length_encode_nlmsg_align m :
  nlmsg_len m < 2 ^ 31 ->
  length (encode_nlmsg m) = Z.to_nat (NLMSG_ALIGN (nlmsg_len m)) /\
  16 <= nlmsg_len m <= NLMSG_ALIGN (nlmsg_len m).
Proof.
  intros Hl.
  assert (H16 : 16 <= nlmsg_len m)
    by (unfold nlmsg_len, SIZEOF_NLMSGHDR; lia).
  rewrite NLMSG_ALIGN_eq by lia.
  pose proof (length_encode_nlmsg m). split; lia.
Qed.

Lemma nlmsg_len_le_encode m :
  16 <= nlmsg_len m <= Z.of_nat (length (encode_nlmsg m)).
Proof.
  pose proof (length_encode_nlmsg m).
  unfold nlmsg_len, SIZEOF_NLMSGHDR in *. lia.
Qed.

Section OneMessage.
Variable m : nlmsg.
Variables pre rest : list byte.
Hypothesis Hwf : wf_nlmsg m.
Hypothesis Hlen : nlmsg_len m < 2 ^ 32.

Local Abbreviation buf := (pre ++ encode_nlmsg m ++ rest).

Lemma load_nlmsg_len : load 4 buf (length pre) = Some (nlmsg_len m).
Proof.
  unfold encode_nlmsg. rewrite <- !app_assoc.
  rewrite (load_skip pre _ 4 0) by lia.
  rewrite load_le_split. f_equal. apply Z.mod_small.
  unfold nlmsg_len, SIZEOF_NLMSGHDR in *. simpl. lia.
Qed.

Lemma load_nlmsg_type : load 2 buf (length pre + 4) = Some (nlmsg_type m).
Proof.
  destruct Hwf as (Ht & _).
  unfold encode_nlmsg. rewrite <- !app_assoc.
  rewrite (load_skip pre _ 2 4) by lia.
  rewrite (load_skip _ _ 2 0) by now rewrite length_le_split.
  rewrite load_le_split. f_equal. apply Z.mod_small. simpl. lia.
Qed.

Lemma load_nlmsg_flags : load 2 buf (length pre + 6) = Some (nlmsg_flags m).
Proof.
  destruct Hwf as (_ & Hf & _).
  unfold encode_nlmsg. rewrite <- !app_assoc.
  rewrite (load_skip pre _ 2 6) by lia.
  rewrite (load_skip _ _ 2 2) by now rewrite length_le_split.
  rewrite (load_skip _ _ 2 0) by now rewrite length_le_split.
  rewrite load_le_split. f_equal. apply Z.mod_small. simpl. lia.
Qed.

Lemma load_nlmsg_seq : load 4 buf (length pre + 8) = Some (nlmsg_seq m).
Proof.
  destruct Hwf as (_ & _ & Hs & _).
  unfold encode_nlmsg. rewrite <- !app_assoc.
  rewrite (load_skip pre _ 4 8) by lia.
  rewrite (load_skip _ _ 4 4) by now rewrite length_le_split.
  rewrite (load_skip _ _ 4 2) by now rewrite length_le_split.
  rewrite (load_skip _ _ 4 0) by now rewrite length_le_split.
  rewrite load_le_split. f_equal. apply Z.mod_small. simpl. lia.
Qed.

Lemma load_nlmsg_pid : load 4 buf (length pre + 12) = Some (nlmsg_pid m).
Proof.
  destruct Hwf as (_ & _ & _ & Hp).
  unfold encode_nlmsg. rewrite <- !app_assoc.
  rewrite (load_skip pre _ 4 12) by lia.
  rewrite (load_skip _ _ 4 8) by now rewrite length_le_split.
  rewrite (load_skip _ _ 4 6) by now rewrite length_le_split.
  rewrite (load_skip _ _ 4 4) by now rewrite length_le_split.
  rewrite (load_skip _ _ 4 0) by now rewrite length_le_split.
  rewrite load_le_split. f_equal. apply Z.mod_small. simpl. lia.
Qed.

Lemma nlmsg_data_at :
  take (Z.to_nat (nlmsg_len m - SIZEOF_NLMSGHDR)) (drop (length pre + 16) buf)
  = nlmsg_data m.
Proof.
  unfold encode_nlmsg. rewrite <- !app_assoc.
  rewrite drop_app_add.
  match goal with
  | |- context [drop 16 (?a ++ ?b ++ ?c ++ ?d ++ ?e ++ ?t)] =>
      replace (a ++ b ++ c ++ d ++ e ++ t)
        with ((a ++ b ++ c ++ d ++ e) ++ t)
        by (rewrite <- !app_assoc; reflexivity);
      rewrite (drop_app_length' (a ++ b ++ c ++ d ++ e))
        by (rewrite !length_app, !length_le_split; reflexivity)
  end.
  unfold nlmsg_len.
  replace (Z.to_nat (SIZEOF_NLMSGHDR + Z.of_nat (length (nlmsg_data m))
                     - SIZEOF_NLMSGHDR))
    with (length (nlmsg_data m)) by lia.
  apply take_app_length.
Qed.

(** The handler is shown exactly the message that was sent. *)
Lemma msg_at_encoded : msg_at buf (length pre) (nlmsg_len m) = Some m.
Proof.
  unfold msg_at.
  rewrite load_nlmsg_type, load_nlmsg_flags, load_nlmsg_seq, load_nlmsg_pid.
  cbv [mbind option_bind]. rewrite nlmsg_data_at. now destruct m.
Qed.
End OneMessage.

(** ** [rtnl_dump]: the walk over one datagram *)

Lemma length_encode_nlmsgs_cons m ms :
  length (encode_nlmsgs (m :: ms))
  = (length (encode_nlmsg m) + length (encode_nlmsgs ms))%nat.
Proof. unfold encode_nlmsgs. simpl. now rewrite length_app. Qed.

Lemma encode_nlmsgs_app ms1 ms2 :
  encode_nlmsgs (ms1 ++ ms2) = encode_nlmsgs ms1 ++ encode_nlmsgs ms2.
Proof. unfold encode_nlmsgs. now rewrite map_app, concat_app. Qed.

Lemma intr_diags_app ms1 ms2 :
  intr_diags (ms1 ++ ms2) = intr_diags ms1 ++ intr_diags ms2.
Proof. unfold intr_diags. apply flat_map_app. Qed.

Lemma NLMSG_LENGTH_nlmsgerr : NLMSG_LENGTH SIZEOF_NLMSGERR = 36.
Proof. reflexivity. Qed.

(** The loop with nothing left to read. *)
Lemma nlmsg_walk_short fuel msglen st :
  msglen < SIZEOF_NLMSGHDR ->
  nlmsg_walk (S fuel) msglen st = (WalkLeft, st).
Proof.
  intros H. cbn [nlmsg_walk].
  destruct (Z.ltb_spec msglen SIZEOF_NLMSGHDR); [reflexivity | lia].
Qed.

Section WalkStep.
Variables (m : nlmsg) (pre rest : list byte) (st : dump_state).
Variables (fuel : nat) (msglen : Z).
Hypothesis Hwf : wf_nlmsg m.
Hypothesis Hbuf : ds_buf st = pre ++ encode_nlmsg m ++ rest.
Hypothesis Hh : ds_h st = length pre.
Hypothesis Hfit : nlmsg_len m <= msglen < 2 ^ 31.

(** One pass of the loop body on a well-formed message that fits. *)
Lemma nlmsg_walk_step :
  nlmsg_walk (S fuel) msglen st
  = let st1 := intr_step (nlmsg_flags m) st in
    if nlmsg_type m =? NLMSG_DONE then (WalkLeft, set_found_done st1)
    else if nlmsg_type m =? NLMSG_ERROR then
      (WalkReturn EXIT_FAILURE,
       say (if nlmsg_len m <? 36 then DiagErrorTruncated
            else DiagPerror "RTNETLINK answers" (ds_errno st)) st1)
    else
      nlmsg_walk fuel (msglen - Z.of_nat (length (encode_nlmsg m)))
        (call_handler m (length pre + length (encode_nlmsg m))%nat st1).
Proof.
  pose proof (nlmsg_len_le_encode m) as Hle.
  destruct (length_encode_nlmsg_align m ltac:(lia)) as [Hal Hab].
  cbn [nlmsg_walk]. unfold SIZEOF_NLMSGHDR.
  destruct (Z.ltb_spec msglen 16); [lia|].
  rewrite Hbuf, Hh.
  rewrite load_nlmsg_len, load_nlmsg_flags, load_nlmsg_type
    by (assumption || lia).
  destruct (Z.ltb_spec (nlmsg_len m) 16); [lia|].
  rewrite wrap_u_small by lia.
  destruct (Z.ltb_spec msglen (nlmsg_len m)); [lia|].
  cbn [orb]. fold (intr_step (nlmsg_flags m) st).
  cbv zeta.
  destruct (nlmsg_type m =? NLMSG_DONE); [reflexivity|].
  destruct (nlmsg_type m =? NLMSG_ERROR).
  { rewrite NLMSG_LENGTH_nlmsgerr.
    assert (He : ds_errno (intr_step (nlmsg_flags m) st) = ds_errno st)
      by (unfold intr_step; now destruct (_ =? 0)).
    rewrite He. now destruct (nlmsg_len m <? 36). }
  assert (Hb1 : ds_buf (intr_step (nlmsg_flags m) st)
                = pre ++ encode_nlmsg m ++ rest)
    by (unfold intr_step; now destruct (_ =? 0)).
  assert (Hh1 : ds_h (intr_step (nlmsg_flags m) st) = length pre)
    by (unfold intr_step; now destruct (_ =? 0)).
  rewrite Hb1, Hh1.
  rewrite msg_at_encoded by (assumption || lia).
  rewrite <- Hal.
  replace (wrap_s 32 (msglen - NLMSG_ALIGN (nlmsg_len m)))
    with (msglen - Z.of_nat (length (encode_nlmsg m))).
  2:{ pose proof (length_encode_nlmsg m). rewrite wrap_s_small; lia. }
  reflexivity.
Qed.
End WalkStep.

Lemma intr_step_handled flags st :
  ds_buf (intr_step flags st) = ds_buf st /\
  ds_h (intr_step flags st) = ds_h st /\
  ds_found_done (intr_step flags st) = ds_found_done st /\
  ds_errno (intr_step flags st) = ds_errno st /\
  ds_calls (intr_step flags st) = ds_calls st.
Proof. unfold intr_step. now destruct (_ =? 0). Qed.

(** The walk over data messages: the handler is called on each of them,
    in order, and the walk stands behind them. *)
Lemma nlmsg_walk_data ms : forall fuel st pre rest r,
  Forall data_msg ms ->
  ds_buf st = pre ++ encode_nlmsgs ms ++ rest ->
  ds_h st = length pre ->
  0 <= r ->
  Z.of_nat (length (encode_nlmsgs ms)) + r < 2 ^ 31 ->
  (Z.to_nat (Z.of_nat (length (encode_nlmsgs ms)) + r) < fuel)%nat ->
  exists fuel',
    (Z.to_nat r < fuel')%nat /\
    nlmsg_walk fuel (Z.of_nat (length (encode_nlmsgs ms)) + r) st
    = nlmsg_walk fuel' r (handled ms st).
Proof.
  induction ms as [|a ms IH]; intros fuel st pre rest r Hms Hbuf Hh Hr Hlen Hfuel.
  - exists fuel. split; [simpl in *; lia|].
    simpl. f_equal. destruct st. unfold handled. simpl.
    f_equal; try (now rewrite app_nil_r). lia.
  - apply Forall_cons in Hms as [[Hwf [Hnd Hne]] Hms].
    rewrite length_encode_nlmsgs_cons in *.
    pose proof (nlmsg_len_le_encode a) as Hle.
    destruct fuel as [|fuel]; [lia|].
    assert (Hbuf' : ds_buf st
                    = pre ++ encode_nlmsg a ++ (encode_nlmsgs ms ++ rest)).
    { rewrite Hbuf. unfold encode_nlmsgs. simpl. now rewrite <- app_assoc. }
    rewrite (nlmsg_walk_step a pre (encode_nlmsgs ms ++ rest) st fuel)
      by (assumption || lia).
    cbv zeta.
    destruct (Z.eqb_spec (nlmsg_type a) NLMSG_DONE); [contradiction|].
    destruct (Z.eqb_spec (nlmsg_type a) NLMSG_ERROR); [contradiction|].
    destruct (intr_step_handled (nlmsg_flags a) st)
      as (Hb1 & Hh1 & Hd1 & He1 & Hc1).
    set (st1 := intr_step (nlmsg_flags a) st) in *.
    set (st2 := call_handler a (length pre + length (encode_nlmsg a)) st1).
    destruct (IH fuel st2 (pre ++ encode_nlmsg a) rest r)
      as (fuel' & Hf' & Heq); try assumption; try lia.
    { unfold st2, call_handler. cbn [ds_buf].
      rewrite Hb1, Hbuf'. now rewrite <- app_assoc. }
    { unfold st2, call_handler. cbn [ds_h]. now rewrite length_app. }
    exists fuel'. split; [assumption|].
    replace (Z.of_nat (length (encode_nlmsg a) + length (encode_nlmsgs ms))
             + r - Z.of_nat (length (encode_nlmsg a)))
      with (Z.of_nat (length (encode_nlmsgs ms)) + r) by lia.
    rewrite Heq. f_equal.
    unfold handled, st2, call_handler.
    cbn [ds_buf ds_h ds_found_done ds_errno ds_calls ds_stderr].
    rewrite Hb1, Hd1, He1, Hc1, Hh, length_encode_nlmsgs_cons.
    f_equal; try lia.
    + now rewrite <- app_assoc.
    + unfold st1, intr_step, intr_diags. simpl.
      destruct (Z.land (nlmsg_flags a) NLM_F_DUMP_INTR =? 0); simpl;
        [reflexivity | now rewrite <- app_assoc].
Qed.

(** ** [rtnl_dump]: whole runs *)

Lemma take_BUFSIZE (data : list byte) :
  (length data <= BUFSIZE)%nat -> take BUFSIZE data = data.
Proof. intros H. now apply take_ge. Qed.

Lemma BUFSIZE_val : Z.of_nat BUFSIZE = 32768.
Proof. reflexivity. Qed.

Lemma encode_nlmsgs_nonempty ms :
  ms <> [] -> 16 <= Z.of_nat (length (encode_nlmsgs ms)).
Proof.
  destruct ms as [|a ms]; [contradiction|]. intros _.
  rewrite length_encode_nlmsgs_cons.
  pose proof (nlmsg_len_le_encode a). lia.
Qed.

(** The walk over a datagram that starts with the data messages [pre]:
    it reaches the byte behind them, with [r] bytes to go. *)
Lemma nlmsg_walk_prefix pre tail st :
  Forall data_msg pre ->
  ds_h st = 0%nat ->
  (length (encode_nlmsgs pre ++ tail) <= BUFSIZE)%nat ->
  exists fuel',
    (length tail < fuel')%nat /\
    nlmsg_walk (S (length (encode_nlmsgs pre ++ tail)))
      (Z.of_nat (length (encode_nlmsgs pre ++ tail)))
      (store_buf (encode_nlmsgs pre ++ tail) st)
    = nlmsg_walk fuel' (Z.of_nat (length tail))
        (handled pre (store_buf (encode_nlmsgs pre ++ tail) st)).
Proof.
  intros Hpre Hh Hlen.
  pose proof BUFSIZE_val as HB.
  set (data := encode_nlmsgs pre ++ tail) in *.
  assert (Hd : length data = (length (encode_nlmsgs pre) + length tail)%nat)
    by (unfold data; now rewrite length_app).
  destruct (nlmsg_walk_data pre (S (length data)) (store_buf data st) []
              (tail ++ drop (length data) (ds_buf st))
              (Z.of_nat (length tail)))
    as (fuel' & Hf' & Heq); try assumption; try lia.
  { unfold store_buf, data. cbn [ds_buf]. now rewrite <- app_assoc. }
  exists fuel'. split; [lia|].
  rewrite <- Heq. f_equal. lia.
Qed.

(** One receive of an untruncated datagram of data messages: the handler
    is called on each, and the code goes back to [again] with [h] reset. *)
Lemma dump_data_datagram ms1 flags evs st :
  ms1 <> [] ->
  Forall data_msg ms1 ->
  (length (encode_nlmsgs ms1) <= BUFSIZE)%nat ->
  Z.land flags MSG_TRUNC = 0 ->
  ds_h st = 0%nat ->
  ds_found_done st = false ->
  rtnl_dump_again (RecvData (encode_nlmsgs ms1) flags :: evs) st
  = rtnl_dump_again evs
      (reset_h (handled ms1 (store_buf (encode_nlmsgs ms1) st))).
Proof.
  intros Hne Hms Hlen Hfl Hh Hfd.
  pose proof BUFSIZE_val as HB.
  pose proof (encode_nlmsgs_nonempty ms1 Hne) as H16.
  cbn [rtnl_dump_again]. rewrite take_BUFSIZE by assumption.
  rewrite wrap_s_small by lia.
  destruct (Z.eqb_spec (Z.of_nat (length (encode_nlmsgs ms1))) 0); [lia|].
  rewrite Nat2Z.id.
  destruct (nlmsg_walk_prefix ms1 [] st Hms Hh) as (fuel' & Hf' & Heq).
  { now rewrite app_nil_r. }
  rewrite app_nil_r in Heq. rewrite Heq.
  destruct fuel' as [|fuel']; [simpl in Hf'; lia|].
  rewrite nlmsg_walk_short by (simpl; unfold SIZEOF_NLMSGHDR; lia).
  rewrite Hfl. cbn [Z.eqb negb].
  cbn [handled store_buf ds_found_done]. rewrite Hfd. reflexivity.
Qed.

(** The three ways on after a walk that left the loop.  After a datagram
    flagged as truncated the code goes back to [again] with [h] and
    [found_done] as the walk left them; otherwise, when no "done" was seen,
    it goes back with [h] reset; otherwise it returns. *)
Lemma rtnl_dump_again_after_walk data flags evs st st' :
  (0 < length data <= BUFSIZE)%nat ->
  nlmsg_walk (S (length data)) (Z.of_nat (length data)) (store_buf data st)
  = (WalkLeft, st') ->
  rtnl_dump_again (RecvData data flags :: evs) st
  = if negb (Z.land flags MSG_TRUNC =? 0)
    then rtnl_dump_again evs (say DiagMessageTruncated st')
    else if negb (ds_found_done st')
         then rtnl_dump_again evs (reset_h st')
         else {| dr_outcome := Returned EXIT_SUCCESS; dr_state := st';
                 dr_rest := evs |}.
Proof.
  intros Hlen Hw. pose proof BUFSIZE_val as HB.
  cbn [rtnl_dump_again]. rewrite take_BUFSIZE by lia.
  rewrite wrap_s_small by lia.
  destruct (Z.eqb_spec (Z.of_nat (length data)) 0); [lia|].
  now rewrite Nat2Z.id, Hw.
Qed.

(** A stream of data messages: every message reaches the handler once, in
    order, and the code is back at [again] waiting for more. *)
Lemma dump_data_stream evs ms :
  data_stream evs ms ->
  forall st more,
    ds_h st = 0%nat -> ds_found_done st = false ->
    exists st',
      rtnl_dump_again (evs ++ more) st = rtnl_dump_again more st' /\
      ds_h st' = 0%nat /\ ds_found_done st' = false /\
      ds_calls st' = ds_calls st ++ ms /\
      ds_stderr st' = ds_stderr st ++ intr_diags ms.
Proof.
  induction 1 as [|e evs ms He Hs IH|ms1 flags evs ms Hne Hms Hlen Hfl Hs IH];
    intros st more Hh Hfd.
  - exists st. simpl. now rewrite !app_nil_r.
  - destruct (IH (set_errno e st) more Hh Hfd)
      as (st' & Heq & Hh' & Hfd' & Hc & Hd).
    exists st'. repeat split; try assumption.
    cbn [app rtnl_dump_again].
    destruct He as [-> | ->]; exact Heq.
  - set (st1 := reset_h (handled ms1 (store_buf (encode_nlmsgs ms1) st))).
    destruct (IH st1 more eq_refl Hfd) as (st' & Heq & Hh' & Hfd' & Hc & Hd).
    exists st'. split; [|repeat split; try assumption].
    + cbn [app]. rewrite dump_data_datagram by assumption. exact Heq.
    + rewrite Hc. unfold st1. cbn [reset_h handled store_buf ds_calls].
      now rewrite <- app_assoc.
    + rewrite Hd. unfold st1. cbn [reset_h handled store_buf ds_stderr].
      now rewrite intr_diags_app, <- app_assoc.
Qed.

(** The receive of a datagram in which the data messages [pre] are
    followed by the well-formed message [t] and then by any bytes. *)
Lemma dump_terminal_datagram pre t junk flags more st :
  Forall data_msg pre ->
  wf_nlmsg t ->
  (length (encode_nlmsgs pre ++ encode_nlmsg t ++ junk) <= BUFSIZE)%nat ->
  ds_h st = 0%nat ->
  let data := encode_nlmsgs pre ++ encode_nlmsg t ++ junk in
  let st1 := intr_step (nlmsg_flags t) (handled pre (store_buf data st)) in
  (nlmsg_type t = NLMSG_DONE ->
     nlmsg_walk (S (length data)) (Z.of_nat (length data)) (store_buf data st)
     = (WalkLeft, set_found_done st1) /\
     (Z.land flags MSG_TRUNC = 0 ->
      rtnl_dump_again (RecvData data flags :: more) st
      = {| dr_outcome := Returned EXIT_SUCCESS;
           dr_state := set_found_done st1; dr_rest := more |})) /\
  (nlmsg_type t = NLMSG_ERROR ->
     rtnl_dump_again (RecvData data flags :: more) st
     = {| dr_outcome := Returned EXIT_FAILURE;
          dr_state :=
            say (if nlmsg_len t <? 36 then DiagErrorTruncated
                 else DiagPerror "RTNETLINK answers" (ds_errno st)) st1;
          dr_rest := more |}).
Proof.
  intros Hpre Hwf Hlen Hh data st1.
  pose proof BUFSIZE_val as HB.
  pose proof (nlmsg_len_le_encode t) as Hle.
  destruct (nlmsg_walk_prefix pre (encode_nlmsg t ++ junk) st Hpre Hh Hlen)
    as (fuel' & Hf' & Heq).
  fold data in Heq.
  destruct fuel' as [|fuel']; [lia|].
  assert (Hlt : Z.of_nat (length (encode_nlmsg t ++ junk)) < 2 ^ 31).
  { unfold data in Hlen. rewrite length_app in Hlen. lia. }
  assert (Hfit : nlmsg_len t <= Z.of_nat (length (encode_nlmsg t ++ junk))).
  { rewrite length_app. lia. }
  rewrite (nlmsg_walk_step t (encode_nlmsgs pre)
             (junk ++ drop (length data) (ds_buf st))
             (handled pre (store_buf data st)) fuel') in Heq;
    try assumption; try lia.
  2:{ unfold handled, store_buf, data. cbn [ds_buf].
      now rewrite <- !app_assoc. }
  2:{ unfold handled, store_buf. cbn [ds_h]. rewrite Hh. reflexivity. }
  cbv zeta in Heq. fold st1 in Heq.
  assert (Hdl : 0 < Z.of_nat (length data) <= 32768).
  { unfold data in *. split; [rewrite !length_app|]; lia. }
  assert (Hdata : (length data <= BUFSIZE)%nat) by exact Hlen.
  assert (Hfd : forall s, ds_found_done (set_found_done s) = true)
    by reflexivity.
  split.
  - intros Ht. rewrite Ht in Heq. cbn [Z.eqb NLMSG_DONE Pos.eqb] in Heq.
    split; [exact Heq|].
    intros Hfl. cbn [rtnl_dump_again].
    rewrite take_BUFSIZE by exact Hdata.
    rewrite wrap_s_small by lia.
    destruct (Z.eqb_spec (Z.of_nat (length data)) 0); [lia|].
    rewrite Nat2Z.id, Heq, Hfl. reflexivity.
  - intros Ht. rewrite Ht in Heq.
    cbn [Z.eqb NLMSG_DONE NLMSG_ERROR Pos.eqb] in Heq.
    cbn [rtnl_dump_again].
    rewrite take_BUFSIZE by exact Hdata.
    rewrite wrap_s_small by lia.
    destruct (Z.eqb_spec (Z.of_nat (length data)) 0); [lia|].
    rewrite Nat2Z.id, Heq.
    unfold handled, store_buf. cbn [ds_errno]. reflexivity.
Qed.

(** ** Fuel is never exhausted, and the handler sees data messages only *)

Lemma load_bound n mem off v :
  load n mem off = Some v -> 0 <= v < 2 ^ (8 * Z.of_nat n).
Proof.
  unfold load.
  destruct (Nat.eqb_spec (length (take n (drop off mem))) n) as [E|];
    [|discriminate].
  intros [= <-]. pose proof (le_combine_bound (take n (drop off mem))) as Hb.
  now rewrite E in Hb.
Qed.

Lemma nlmsg_walk_fuel fuel : forall msglen st,
  msglen < 2 ^ 31 -> (Z.to_nat msglen < fuel)%nat ->
  fst (nlmsg_walk fuel msglen st) <> WalkNoFuel.
Proof.
  induction fuel as [|fuel IH]; intros msglen st Hm Hf; [lia|].
  cbn [nlmsg_walk]. unfold SIZEOF_NLMSGHDR.
  destruct (Z.ltb_spec msglen 16); [discriminate|].
  destruct (load 4 (ds_buf st) (ds_h st)) as [len|] eqn:El; [|discriminate].
  rewrite wrap_u_small by lia.
  destruct (Z.ltb_spec len 16); [discriminate|].
  destruct (Z.ltb_spec msglen len); [discriminate|]. cbn [orb].
  destruct (load 2 (ds_buf st) (ds_h st + 6)); [|discriminate].
  destruct (load 2 (ds_buf st) (ds_h st + 4)); [|discriminate].
  destruct (_ =? NLMSG_DONE); [discriminate|].
  destruct (_ =? NLMSG_ERROR); [now destruct (_ <? _)|].
  destruct (msg_at _ _ _); [|discriminate].
  rewrite NLMSG_ALIGN_eq by lia.
  rewrite wrap_s_small by lia.
  apply IH; lia.
Qed.

(** A run of [rtnl_dump] on any sequence of receive events ends in a
    return, in a blocked [recvmsg] or in a fault: the fuel of the model
    always suffices. *)
Lemma rtnl_dump_again_fuel evs : forall st,
  dr_outcome (rtnl_dump_again evs st) <> OutOfFuel.
Proof.
  induction evs as [|[e|data flags] evs IH]; intros st; cbn [rtnl_dump_again].
  - discriminate.
  - destruct (_ || _); [apply IH | discriminate].
  - set (d := take BUFSIZE data).
    assert (Hl : Z.of_nat (length d) <= 32768).
    { pose proof BUFSIZE_val. unfold d. rewrite length_take. lia. }
    clearbody d.
    rewrite wrap_s_small by lia.
    destruct (_ =? 0); [discriminate|].
    assert (Hw : fst (nlmsg_walk (S (Z.to_nat (Z.of_nat (length d))))
                        (Z.of_nat (length d)) (store_buf d st)) <> WalkNoFuel)
      by (apply nlmsg_walk_fuel; lia).
    destruct (nlmsg_walk _ _ _) as [[| s | |] st']; cbn [dr_outcome].
    + destruct (negb _); [apply IH|].
      destruct (negb _); [apply IH | discriminate].
    + discriminate.
    + discriminate.
    + now contradiction Hw.
Qed.

Lemma rta_walk_fuel fuel : forall max mem tb rta len,
  len < 2 ^ 31 -> (Z.to_nat len < fuel)%nat ->
  rta_walk fuel max mem tb rta len <> NoFuel.
Proof.
  induction fuel as [|fuel IH]; intros max mem tb rta len Hl Hf; [lia|].
  cbn [rta_walk]. unfold SIZEOF_RTATTR.
  destruct (Z.ltb_spec len 4); [discriminate|].
  destruct (load 2 mem rta) as [l|] eqn:El; [|discriminate].
  destruct (Z.ltb_spec l 4); [discriminate|].
  destruct (Z.ltb_spec len l); [discriminate|]. cbn [orb].
  destruct (load 2 mem (rta + 2)); [|discriminate].
  rewrite RTA_ALIGN_eq by lia.
  rewrite wrap_u_small, wrap_s_small by lia.
  apply IH; lia.
Qed.

Lemma parse_rtattr_fuel max mem len :
  len < 2 ^ 31 -> parse_rtattr max mem len <> NoFuel.
Proof.
  intros Hl. unfold parse_rtattr.
  pose proof (rta_walk_fuel (S (Z.to_nat len)) max mem
                (replicate (Z.to_nat (max + 1)) None) 0%nat len Hl) as H.
  destruct (rta_walk _ _ _ _ _ _) as [[[tb rta] len']| |];
    try discriminate.
  exfalso. apply H; [lia | reflexivity].
Qed.

Lemma msg_at_type buf h len m :
  msg_at buf h len = Some m -> load 2 buf (h + 4) = Some (nlmsg_type m).
Proof.
  unfold msg_at. cbv [mbind option_bind].
  destruct (load 2 buf (h + 4)); [|discriminate].
  destruct (load 2 buf (h + 6)); [|discriminate].
  destruct (load 4 buf (h + 8)); [|discriminate].
  destruct (load 4 buf (h + 12)); [|discriminate].
  now intros [= <-].
Qed.

Lemma nlmsg_walk_calls fuel : forall msglen st,
  Forall is_data (ds_calls st) ->
  Forall is_data (ds_calls (snd (nlmsg_walk fuel msglen st))).
Proof.
  induction fuel as [|fuel IH]; intros msglen st Hc; [assumption|].
  cbn [nlmsg_walk].
  destruct (_ <? _); [assumption|].
  destruct (load 4 (ds_buf st) (ds_h st)) as [len|]; [|assumption].
  destruct (_ || _); [assumption|].
  destruct (load 2 (ds_buf st) (ds_h st + 6)) as [flags|]; [|assumption].
  destruct (load 2 (ds_buf st) (ds_h st + 4)) as [type|] eqn:Et;
    [|assumption].
  fold (intr_step flags st).
  destruct (intr_step_handled flags st) as (Hb & Hh & _ & _ & Hcs).
  destruct (Z.eqb_spec type NLMSG_DONE); [cbn; now rewrite Hcs|].
  destruct (Z.eqb_spec type NLMSG_ERROR).
  { destruct (_ <? _); cbn; now rewrite Hcs. }
  destruct (msg_at _ _ _) as [m|] eqn:Em; [|cbn; now rewrite Hcs].
  apply IH. cbn [call_handler ds_calls]. rewrite Hcs.
  apply Forall_app. split; [assumption|].
  constructor; [|constructor].
  apply msg_at_type in Em. rewrite Hb, Hh, Et in Em.
  injection Em as Em. unfold is_data. rewrite <- Em. now split.
Qed.

(** Whatever is received, the handler is never called on a message of
    type "done" or "error". *)
Lemma rtnl_dump_again_calls evs : forall st,
  Forall is_data (ds_calls st) ->
  Forall is_data (ds_calls (dr_state (rtnl_dump_again evs st))).
Proof.
  induction evs as [|[e|data flags] evs IH]; intros st Hc;
    cbn [rtnl_dump_again].
  - assumption.
  - destruct (_ || _); [now apply IH | assumption].
  - destruct (_ =? 0); [assumption|].
    pose proof (nlmsg_walk_calls
                  (S (Z.to_nat (wrap_s 32 (Z.of_nat
                                             (length (take BUFSIZE data))))))
                  (wrap_s 32 (Z.of_nat (length (take BUFSIZE data))))
                  (store_buf (take BUFSIZE data) st) Hc) as Hw.
    destruct (nlmsg_walk _ _ _) as [[| s | |] st']; cbn [snd] in Hw;
      cbn [dr_state]; try assumption.
    destruct (negb _); [now apply IH|].
    destruct (negb _); [now apply IH | assumption].
Qed.

Lemma ds_stderr_intr_step flags st :
  ds_stderr (intr_step flags st)
  = ds_stderr st ++ (if Z.land flags NLM_F_DUMP_INTR =? 0 then []
                     else [DiagDumpInterrupted]).
Proof.
  unfold intr_step. destruct (_ =? 0); [now rewrite app_nil_r | reflexivity].
Qed.

Lemma encode_nlmsgs_snoc pre d after :
  encode_nlmsgs (pre ++ d :: after)
  = encode_nlmsgs pre ++ encode_nlmsg d ++ encode_nlmsgs after.
Proof. now rewrite encode_nlmsgs_app. Qed.

Lemma dump_init_start errno0 :
  ds_h (dump_init errno0) = 0%nat /\
  ds_found_done (dump_init errno0) = false /\
  ds_calls (dump_init errno0) = [] /\ ds_stderr (dump_init errno0) = [].
Proof. now repeat split. Qed.

(** C1 (as amended).  Let the receives deliver data messages [ms], whole and
    in untruncated datagrams, and then a datagram that holds the data
    messages [pre] followed by a "done" message: a stream with no error
    message, terminated by "done".  Then [rtnl_dump] calls the handler on
    each message of [ms ++ pre], once and in the order of receipt, and
    returns [EXIT_SUCCESS] without another receive. *)
Theorem rtnl_dump_done_stream (errno0 : Z) (evs more : list recv_event)
    (ms pre : list nlmsg) (d : nlmsg) (flags : Z) :
  data_stream evs ms ->
  Forall data_msg pre ->
  wf_nlmsg d -> nlmsg_type d = NLMSG_DONE ->
  (length (encode_nlmsgs (pre ++ [d])) <= BUFSIZE)%nat ->
  Z.land flags MSG_TRUNC = 0 ->
  let r := rtnl_dump errno0
             (evs ++ RecvData (encode_nlmsgs (pre ++ [d])) flags :: more) in
  dr_outcome r = Returned EXIT_SUCCESS /\
  ds_calls (dr_state r) = ms ++ pre /\
  dr_rest r = more.
Proof.
  intros Hs Hpre Hwf Hd Hlen Hfl r. subst r. unfold rtnl_dump.
  destruct (dump_init_start errno0) as (Hh0 & Hf0 & Hc0 & _).
  destruct (dump_data_stream evs ms Hs (dump_init errno0)
              (RecvData (encode_nlmsgs (pre ++ [d])) flags :: more) Hh0 Hf0)
    as (st' & Heq & Hh & _ & Hc & _).
  rewrite Heq. rewrite encode_nlmsgs_snoc in *.
  change (encode_nlmsgs []) with (@nil byte) in *.
  destruct (dump_terminal_datagram pre d [] flags more st' Hpre Hwf Hlen Hh)
    as [Hdone _].
  destruct (Hdone Hd) as [_ Hret]. rewrite (Hret Hfl).
  cbn [dr_outcome dr_state dr_rest set_found_done ds_calls].
  destruct (intr_step_handled (nlmsg_flags d)
              (handled pre (store_buf (encode_nlmsgs pre ++ encode_nlmsg d ++ [])
                              st'))) as (_ & _ & _ & _ & Hcs).
  rewrite Hcs. cbn [handled store_buf ds_calls].
  rewrite Hc, Hc0. repeat split.
Qed.

(** C3 (as amended).  Let the receives deliver data messages [ms] as above
    and then a datagram in which the data messages [pre] are followed by an
    "error" message [e]: the walk reaches [e].  Then [rtnl_dump] returns
    [EXIT_FAILURE]; the handler was called on [ms ++ pre] and not on [e];
    the last line on stderr is "ERROR truncated" when the payload of [e] is
    shorter than [struct nlmsgerr], and the [perror] line "RTNETLINK
    answers" otherwise.  On no input at all is the handler called on a
    message of type "error" or "done". *)
Theorem rtnl_dump_error_message (errno0 : Z) (evs more : list recv_event)
    (ms pre : list nlmsg) (e : nlmsg) (junk : list byte) (flags : Z) :
  data_stream evs ms ->
  Forall data_msg pre ->
  wf_nlmsg e -> nlmsg_type e = NLMSG_ERROR ->
  (length (encode_nlmsgs pre ++ encode_nlmsg e ++ junk) <= BUFSIZE)%nat ->
  let r := rtnl_dump errno0
             (evs ++ RecvData (encode_nlmsgs pre ++ encode_nlmsg e ++ junk)
                       flags :: more) in
  dr_outcome r = Returned EXIT_FAILURE /\
  ds_calls (dr_state r) = ms ++ pre /\
  ~ In e (ds_calls (dr_state r)) /\
  (exists errno,
     ds_stderr (dr_state r)
     = intr_diags (ms ++ pre ++ [e])
       ++ [if Z.of_nat (length (nlmsg_data e)) <? SIZEOF_NLMSGERR
           then DiagErrorTruncated
           else DiagPerror "RTNETLINK answers" errno]) /\
  (forall errno1 evs1,
     Forall is_data (ds_calls (dr_state (rtnl_dump errno1 evs1)))).
Proof.
  intros Hs Hpre Hwf He Hlen r.
  assert (Hinv : forall errno1 evs1,
            Forall is_data (ds_calls (dr_state (rtnl_dump errno1 evs1)))).
  { intros. apply rtnl_dump_again_calls. constructor. }
  assert (Hnot : ~ In e (ds_calls (dr_state r))).
  { intros Hin. specialize (Hinv errno0
      (evs ++ RecvData (encode_nlmsgs pre ++ encode_nlmsg e ++ junk) flags
           :: more)).
    rewrite Forall_forall in Hinv. apply list_elem_of_In in Hin.
    destruct (Hinv e Hin) as [_ Hne]. contradiction. }
  split; [|split; [|split; [exact Hnot|split; [|exact Hinv]]]];
    clear Hnot Hinv; subst r; unfold rtnl_dump;
    destruct (dump_init_start errno0) as (Hh0 & Hf0 & Hc0 & Hd0);
    destruct (dump_data_stream evs ms Hs (dump_init errno0)
                (RecvData (encode_nlmsgs pre ++ encode_nlmsg e ++ junk) flags
                   :: more) Hh0 Hf0)
      as (st' & Heq & Hh & _ & Hc & Hd);
    rewrite Heq;
    destruct (dump_terminal_datagram pre e junk flags more st' Hpre Hwf Hlen Hh)
      as [_ Herr];
    rewrite (Herr He); cbn [dr_outcome dr_state say ds_calls ds_stderr].
  - reflexivity.
  - destruct (intr_step_handled (nlmsg_flags e)
                (handled pre
                   (store_buf (encode_nlmsgs pre ++ encode_nlmsg e ++ junk)
                      st'))) as (_ & _ & _ & _ & Hcs).
    rewrite Hcs. cbn [handled store_buf ds_calls].
    now rewrite Hc, Hc0.
  - exists (ds_errno st').
    rewrite ds_stderr_intr_step. cbn [handled store_buf ds_stderr].
    rewrite Hd, Hd0. rewrite !intr_diags_app. cbn [app].
    rewrite <- !app_assoc. do 2 f_equal.
    unfold intr_diags. cbn [flat_map]. rewrite app_nil_r.
    f_equal. f_equal.
    unfold nlmsg_len, SIZEOF_NLMSGHDR, SIZEOF_NLMSGERR.
    destruct (Z.ltb_spec (16 + Z.of_nat (length (nlmsg_data e))) 36);
      destruct (Z.ltb_spec (Z.of_nat (length (nlmsg_data e))) 20);
      try reflexivity; lia.
Qed.

(** The walk of one datagram, started at the start of the buffer.  When
    the data messages [pre] are followed by a "done" message, the walk
    stops at that message, whatever follows it in the datagram and whatever
    the transport flags are: the handler has been called on [pre] only and
    [h] stands at the "done" message.  When the datagram is not flagged as
    truncated, [rtnl_dump] returns [EXIT_SUCCESS] right there.  (After a
    datagram that is flagged as truncated the code receives again, with
    [h] and [found_done] kept.) *)
Theorem rtnl_dump_stops_at_done (errno0 : Z) (evs more : list recv_event)
    (ms pre after : list nlmsg) (d : nlmsg) (flags : Z) (st : dump_state) :
  data_stream evs ms ->
  Forall data_msg pre ->
  wf_nlmsg d -> nlmsg_type d = NLMSG_DONE ->
  (length (encode_nlmsgs (pre ++ d :: after)) <= BUFSIZE)%nat ->
  ds_h st = 0%nat ->
  let data := encode_nlmsgs (pre ++ d :: after) in
  (exists st',
     nlmsg_walk (S (length data)) (Z.of_nat (length data)) (store_buf data st)
     = (WalkLeft, st') /\
     ds_found_done st' = true /\
     ds_calls st' = ds_calls st ++ pre /\
     ds_h st' = length (encode_nlmsgs pre)) /\
  (Z.land flags MSG_TRUNC = 0 ->
   let r := rtnl_dump errno0 (evs ++ RecvData data flags :: more) in
   dr_outcome r = Returned EXIT_SUCCESS /\
   ds_calls (dr_state r) = ms ++ pre /\
   dr_rest r = more).
Proof.
  intros Hs Hpre Hwf Hd Hlen Hh data. subst data.
  rewrite encode_nlmsgs_snoc in *.
  split.
  - destruct (dump_terminal_datagram pre d (encode_nlmsgs after) flags more
                st Hpre Hwf Hlen Hh) as [Hdone _].
    destruct (Hdone Hd) as [Hwalk _].
    eexists. split; [exact Hwalk|].
    destruct (intr_step_handled (nlmsg_flags d)
                (handled pre
                   (store_buf
                      (encode_nlmsgs pre ++ encode_nlmsg d
                       ++ encode_nlmsgs after) st)))
      as (_ & Hhs & _ & _ & Hcs).
    cbn [set_found_done ds_found_done ds_calls ds_h].
    rewrite Hcs, Hhs. cbn [handled store_buf ds_calls ds_h].
    rewrite Hh. repeat split.
  - intros Hfl r. subst r. unfold rtnl_dump.
    destruct (dump_init_start errno0) as (Hh0 & Hf0 & Hc0 & _).
    destruct (dump_data_stream evs ms Hs (dump_init errno0)
                (RecvData (encode_nlmsgs pre ++ encode_nlmsg d
                           ++ encode_nlmsgs after) flags :: more) Hh0 Hf0)
      as (st' & Heq & Hh' & _ & Hc & _).
    rewrite Heq.
    destruct (dump_terminal_datagram pre d (encode_nlmsgs after) flags more
                st' Hpre Hwf Hlen Hh') as [Hdone _].
    destruct (Hdone Hd) as [_ Hret]. rewrite (Hret Hfl).
    cbn [dr_outcome dr_state dr_rest set_found_done ds_calls].
    destruct (intr_step_handled (nlmsg_flags d)
                (handled pre
                   (store_buf
                      (encode_nlmsgs pre ++ encode_nlmsg d
                       ++ encode_nlmsgs after) st')))
      as (_ & _ & _ & _ & Hcs).
    rewrite Hcs. cbn [handled store_buf ds_calls].
    rewrite Hc, Hc0. repeat split.
Qed.

(** ** The statements on concrete inputs *)

Ltac solve_msgs :=
  repeat constructor;
  unfold data_msg, wf_nlmsg, is_data, wf_rtattr, rta_len, NLMSG_DONE,
    NLMSG_ERROR, SIZEOF_RTATTR; simpl; try lia; try discriminate.

Ltac solve_fits := apply Nat.leb_le; vm_compute; reflexivity.

Lemma ex_stream :
  data_stream [RecvData (encode_nlmsgs [ex_d1]) 0; RecvFail EINTR] [ex_d1].
Proof.
  apply (ds_dgram [ex_d1] 0 [RecvFail EINTR] []);
    [discriminate | solve_msgs | solve_fits | reflexivity |].
  apply ds_retry; [now left | constructor].
Qed.

Lemma rtnl_dump_done_stream_witness :
  data_stream [RecvData (encode_nlmsgs [ex_d1]) 0; RecvFail EINTR] [ex_d1] /\
  dr_outcome
    (rtnl_dump 0 ([RecvData (encode_nlmsgs [ex_d1]) 0; RecvFail EINTR]
                  ++ [RecvData (encode_nlmsgs ([ex_d2] ++ [ex_done])) 0]))
  = Returned EXIT_SUCCESS /\
  ds_calls (dr_state
    (rtnl_dump 0 ([RecvData (encode_nlmsgs [ex_d1]) 0; RecvFail EINTR]
                  ++ [RecvData (encode_nlmsgs ([ex_d2] ++ [ex_done])) 0])))
  = [ex_d1; ex_d2].
Proof.
  split; [exact ex_stream|].
  destruct (rtnl_dump_done_stream 0
              [RecvData (encode_nlmsgs [ex_d1]) 0; RecvFail EINTR] []
              [ex_d1] [ex_d2] ex_done 0)
    as (Ho & Hc & _);
    [exact ex_stream | solve_msgs | solve_msgs | reflexivity | solve_fits
    | reflexivity | ].
  split; [exact Ho | exact Hc].
Defined.

(** C1 (as stated) fails: in the stream [d1; error; d2; done], all
    well-formed and terminated by "done", the handler is called on [d1]
    only and the result is [EXIT_FAILURE]. *)
Lemma rtnl_dump_error_before_done :
  let stream := [ex_d1; ex_err; ex_d2; ex_done] in
  let r := rtnl_dump 0 [deliver (encode_nlmsgs stream)] in
  Forall wf_nlmsg stream /\
  deliver (encode_nlmsgs stream) = RecvData (encode_nlmsgs stream) 0 /\
  dr_outcome r = Returned EXIT_FAILURE /\
  ds_calls (dr_state r) = [ex_d1] /\
  ~ (dr_outcome r = Returned EXIT_SUCCESS /\
     ds_calls (dr_state r) = [ex_d1; ex_d2]).
Proof.
  cbv zeta. split; [solve_msgs|].
  split; [vm_compute; reflexivity|].
  split; [vm_compute; reflexivity|].
  split; [vm_compute; reflexivity|].
  intros [H _]. vm_compute in H. discriminate.
Qed.

(** C2: the run on a datagram longer than the buffer, followed by a
    datagram of 48 bytes.  The first receive is truncated; the handler is
    called on its first message and [h] stays at offset 16.  The second
    walk therefore starts inside the payload of the first message of the
    new datagram: the handler is called on that payload as if it were a
    message, never on the message itself, and the run returns
    [EXIT_SUCCESS].  Received alone, the second datagram gives one call, on
    the message itself. *)
Theorem rtnl_dump_truncation_keeps_h :
  let r := rtnl_dump 0 [deliver ex_long_dgram; deliver ex_next_dgram] in
  deliver ex_long_dgram = RecvData (take BUFSIZE ex_long_dgram) MSG_TRUNC /\
  deliver ex_next_dgram = RecvData ex_next_dgram 0 /\
  dr_outcome r = Returned EXIT_SUCCESS /\
  ds_calls (dr_state r) = [ex_small; ex_inner] /\
  ds_stderr (dr_state r) = [DiagMessageTruncated] /\
  ds_calls (dr_state (rtnl_dump 0 [deliver ex_next_dgram])) = [ex_outer].
Proof.
  cbv zeta. repeat split; vm_compute; reflexivity.
Qed.

(** After a truncated receive the next walk starts where the previous one
    stopped, not at the start of the buffer: here the second datagram holds
    "done" only, and the walk, started at offset 16, does not see it. *)
Lemma rtnl_dump_truncation_misses_done :
  let r := rtnl_dump 0 [RecvData (encode_nlmsgs [ex_small]) MSG_TRUNC;
                        RecvData (encode_nlmsgs [ex_done]) 0] in
  dr_outcome r = Blocked /\ ds_calls (dr_state r) = [ex_small].
Proof. cbv zeta. split; vm_compute; reflexivity. Qed.

(** C10: the run on a datagram that holds a "done" message with further
    messages behind it and that is longer than the buffer, followed by a
    datagram of two data messages.  The first walk calls the handler on the
    first message and stops at "done", at offset 16; the receive is flagged
    as truncated, so the code receives again and keeps [h] and
    [found_done].  The second walk starts at offset 16: the handler is
    called on the second message of the new datagram and then, at offset
    32, on the bytes the first datagram left there, which are the message
    that followed "done" in it.  The run returns [EXIT_SUCCESS]. *)
Theorem rtnl_dump_handles_message_behind_done :
  let r := rtnl_dump 0 [deliver ex_done_dgram; deliver ex_short_dgram] in
  deliver ex_done_dgram = RecvData (take BUFSIZE ex_done_dgram) MSG_TRUNC /\
  deliver ex_short_dgram = RecvData ex_short_dgram 0 /\
  take 48 ex_done_dgram = encode_nlmsgs [ex_small; ex_done; ex_after] /\
  dr_outcome r = Returned EXIT_SUCCESS /\
  ds_calls (dr_state r) = [ex_small; ex_m9; ex_after] /\
  ds_stderr (dr_state r) = [DiagMessageTruncated] /\
  In ex_after (ds_calls (dr_state r)).
Proof.
  cbv zeta.
  assert (Hc : ds_calls (dr_state
                 (rtnl_dump 0 [deliver ex_done_dgram; deliver ex_short_dgram]))
               = [ex_small; ex_m9; ex_after]) by (vm_compute; reflexivity).
  rewrite Hc.
  repeat split; try (vm_compute; reflexivity).
  right; right; now left.
Qed.

Lemma rtnl_dump_error_message_witness :
  data_stream [RecvData (encode_nlmsgs [ex_d1]) 0; RecvFail EINTR] [ex_d1] /\
  dr_outcome
    (rtnl_dump 0 ([RecvData (encode_nlmsgs [ex_d1]) 0; RecvFail EINTR]
                  ++ [RecvData (encode_nlmsgs [ex_d2]
                                ++ encode_nlmsg ex_err_short ++ []) 0]))
  = Returned EXIT_FAILURE /\
  ds_calls (dr_state
    (rtnl_dump 0 ([RecvData (encode_nlmsgs [ex_d1]) 0; RecvFail EINTR]
                  ++ [RecvData (encode_nlmsgs [ex_d2]
                                ++ encode_nlmsg ex_err_short ++ []) 0])))
  = [ex_d1; ex_d2].
Proof.
  split; [exact ex_stream|].
  destruct (rtnl_dump_error_message 0
              [RecvData (encode_nlmsgs [ex_d1]) 0; RecvFail EINTR] []
              [ex_d1] [ex_d2] ex_err_short [] 0)
    as (Ho & Hc & _);
    [exact ex_stream | solve_msgs | solve_msgs | reflexivity | solve_fits | ].
  split; [exact Ho | exact Hc].
Defined.

(** C3 (as stated) fails: a stream that contains an error message behind a
    "done" message; the run returns [EXIT_SUCCESS]. *)
Lemma rtnl_dump_error_after_done :
  let stream := [ex_d1; ex_done; ex_err] in
  let r := rtnl_dump 0 [deliver (encode_nlmsgs stream)] in
  In ex_err stream /\ nlmsg_type ex_err = NLMSG_ERROR /\
  deliver (encode_nlmsgs stream) = RecvData (encode_nlmsgs stream) 0 /\
  dr_outcome r = Returned EXIT_SUCCESS /\
  dr_outcome r <> Returned EXIT_FAILURE.
Proof.
  cbv zeta. split; [right; right; now left|].
  split; [reflexivity|].
  split; [vm_compute; reflexivity|].
  split; [vm_compute; reflexivity|].
  vm_compute. discriminate.
Qed.

(** What the "RTNETLINK answers" line carries is the process [errno]: the
    code never reads the error code of the message (here -13). *)
Lemma rtnl_dump_error_prints_errno errno0 :
  ds_stderr (dr_state (rtnl_dump errno0 [deliver (encode_nlmsgs [ex_err])]))
  = [DiagPerror "RTNETLINK answers" errno0].
Proof. vm_compute. reflexivity. Qed.

Lemma rtnl_dump_error_short_payload errno0 :
  ds_stderr (dr_state
    (rtnl_dump errno0 [deliver (encode_nlmsgs [ex_err_short])]))
  = [DiagErrorTruncated].
Proof. vm_compute. reflexivity. Qed.

Lemma rtnl_dump_stops_at_done_witness :
  data_stream [RecvData (encode_nlmsgs [ex_d1]) 0; RecvFail EINTR] [ex_d1] /\
  dr_outcome
    (rtnl_dump 0 ([RecvData (encode_nlmsgs [ex_d1]) 0; RecvFail EINTR]
                  ++ [RecvData (encode_nlmsgs ([] ++ ex_done :: [ex_d2])) 0]))
  = Returned EXIT_SUCCESS /\
  ds_calls (dr_state
    (rtnl_dump 0 ([RecvData (encode_nlmsgs [ex_d1]) 0; RecvFail EINTR]
                  ++ [RecvData (encode_nlmsgs ([] ++ ex_done :: [ex_d2])) 0])))
  = [ex_d1].
Proof.
  split; [exact ex_stream|].
  destruct (rtnl_dump_stops_at_done 0
              [RecvData (encode_nlmsgs [ex_d1]) 0; RecvFail EINTR] []
              [ex_d1] [] [ex_d2] ex_done 0 (dump_init 0))
    as (_ & Hrun);
    [exact ex_stream | solve_msgs | solve_msgs | reflexivity | solve_fits
    | reflexivity | ].
  destruct (Hrun eq_refl) as (Ho & Hc & _).
  split; [exact Ho | exact Hc].
Defined.

Lemma parse_rtattr_first_wins_witness :
  Forall wf_rtattr ([] ++ ex_r1 :: [ex_r2] ++ ex_r1' :: []) /\
  exists tb,
    parse_rtattr 3 (encode_rtattrs [ex_r1; ex_r2; ex_r1'] ++ [])
      (Z.of_nat (length (encode_rtattrs [ex_r1; ex_r2; ex_r1'] ++ [])))
    = Ret {| pr_tb := tb; pr_stderr := [] |} /\
    tb !! 1%nat = Some (Some 0%nat).
Proof.
  assert (Hwf : Forall wf_rtattr ([] ++ ex_r1 :: [ex_r2] ++ ex_r1' :: []))
    by solve_msgs.
  split; [exact Hwf|].
  destruct (parse_rtattr_first_wins 3 [] [ex_r2] [] ex_r1 ex_r1' [])
    as (tb & err & Hp & Ht & _ & _ & He);
    [exact Hwf | reflexivity | simpl; lia | constructor
    | left; simpl; unfold SIZEOF_RTATTR; lia | vm_compute; reflexivity | ].
  exists tb. rewrite (He eq_refl) in Hp. split; [exact Hp | exact Ht].
Defined.

Lemma parse_rtattr_malformed_tail_witness :
  rta_not_ok [Byte.x01; Byte.x01] 2 /\
  exists tb,
    parse_rtattr 3 (encode_rtattrs [ex_r1; ex_r2] ++ [Byte.x01; Byte.x01]) 18
    = Ret {| pr_tb := tb; pr_stderr := [DiagDeficit 2 (Some 257)] |} /\
    tb !! 2%nat = Some (Some 8%nat).
Proof.
  assert (Hbad : rta_not_ok [Byte.x01; Byte.x01] 2)
    by (left; unfold SIZEOF_RTATTR; lia).
  split; [exact Hbad|].
  destruct (parse_rtattr_malformed_tail 3 [ex_r1; ex_r2] [Byte.x01; Byte.x01])
    as (tb & Hp & _ & _ & Ht);
    [lia | solve_msgs | discriminate | exact Hbad | vm_compute; reflexivity | ].
  exists tb. split; [exact Hp|].
  apply (Ht 2). lia.
Defined.

(** A record of a type above [max] is not stored at all. *)
Lemma parse_rtattr_type_above_max :
  parse_rtattr 1 (encode_rtattrs [ex_r1; ex_r2; ex_r1']) 24
  = Ret {| pr_tb := [None; Some 0%nat]; pr_stderr := [] |}.
Proof. vm_compute. reflexivity. Qed.

(** * Further properties of the code *)

(** ** [rtnl_open], [rtnl_close], [sockdiag_send], [set_extension] *)

(** X1.  [rtnl_open] returns 0 exactly when no sub-step fails.  It has then
    made the six calls in their order (socket, SO_SNDBUF 32768, SO_RCVBUF
    1 MiB, bind to AF_NETLINK without groups, getsockname, time), printed
    nothing, and overwritten every field of the handle: the descriptor is
    the one [socket] returned, the address the one [getsockname] stored,
    the sequence number the time cut to 32 bits. *)
Theorem rtnl_open_success_iff (env : open_env) (rth : rtnl_handle) :
  let r := rtnl_open env rth in
  (open_status r = 0 <-> ~ open_step_fails env) /\
  (open_status r = 0 ->
     open_handle r = {| fd := env_socket env; local := env_local env;
                        seq := wrap_u 32 (env_time env) |} /\
     open_log r = open_calls (env_socket env) /\
     open_stderr r = []).
Proof.
  cbv zeta. unfold open_step_fails, rtnl_open. simpl.
  destruct (Z.ltb_spec (env_socket env) 0);
    [split; [split; [discriminate | lia] | discriminate]|].
  destruct (Z.ltb_spec (env_sndbuf env) 0);
    [split; [split; [discriminate | lia] | discriminate]|].
  destruct (Z.ltb_spec (env_rcvbuf env) 0);
    [split; [split; [discriminate | lia] | discriminate]|].
  destruct (Z.ltb_spec (env_bind env) 0);
    [split; [split; [discriminate | lia] | discriminate]|].
  destruct (Z.ltb_spec (env_getsockname env) 0);
    [split; [split; [discriminate | lia] | discriminate]|].
  destruct (Z.eqb_spec (env_addr_len env) SIZEOF_SOCKADDR_NL); simpl;
    [|split; [split; [discriminate | lia] | discriminate]].
  destruct (Z.eqb_spec (nl_family (env_local env)) AF_NETLINK); simpl;
    [|split; [split; [discriminate | lia] | discriminate]].
  split; [split; [lia | reflexivity]|].
  intros _. repeat split.
Qed.

Lemma rtnl_open_success_iff_witness :
  open_status (rtnl_open env_ok handle0) = 0 /\
  open_log (rtnl_open env_ok handle0) = open_calls 3.
Proof.
  destruct (rtnl_open_success_iff env_ok handle0) as [_ H].
  destruct (H eq_refl) as (_ & Hl & _).
  split; [reflexivity | exact Hl].
Defined.

(** X2.  Whatever the kernel answers, the calls [rtnl_open] has made are an
    initial part of that sequence: it starts with [socket], it never binds
    before both buffer sizes are configured, and it closes nothing. *)
Theorem rtnl_open_log_prefix (env : open_env) (rth : rtnl_handle) :
  let r := rtnl_open env rth in
  (exists rest, open_log r ++ rest = open_calls (env_socket env)) /\
  (In (SysBind (env_socket env) AF_NETLINK 0) (open_log r) ->
     In (SysSetsockopt (env_socket env) SOL_SOCKET SO_SNDBUF 32768) (open_log r) /\
     In (SysSetsockopt (env_socket env) SOL_SOCKET SO_RCVBUF (1024 * 1024))
        (open_log r)) /\
  count_close (env_socket env) (open_log r) = 0%nat.
Proof.
  cbv zeta. unfold rtnl_open, open_calls. simpl.
  destruct (env_socket env <? 0);
    [split; [eexists; reflexivity | split; [|reflexivity]];
     simpl; intros [H|[]]; discriminate|].
  destruct (env_sndbuf env <? 0);
    [split; [eexists; reflexivity | split; [|reflexivity]];
     simpl; intros [H|[H|[]]]; discriminate|].
  destruct (env_rcvbuf env <? 0);
    [split; [eexists; reflexivity | split; [|reflexivity]];
     simpl; intros [H|[H|[H|[]]]]; discriminate|].
  assert (Hin : forall l : list syscall,
    In (SysSetsockopt (env_socket env) SOL_SOCKET SO_SNDBUF 32768)
       (SysSocket AF_NETLINK 524291 NETLINK_SOCK_DIAG
        :: SysSetsockopt (env_socket env) SOL_SOCKET SO_SNDBUF 32768
        :: SysSetsockopt (env_socket env) SOL_SOCKET SO_RCVBUF 1048576 :: l) /\
    In (SysSetsockopt (env_socket env) SOL_SOCKET SO_RCVBUF 1048576)
       (SysSocket AF_NETLINK 524291 NETLINK_SOCK_DIAG
        :: SysSetsockopt (env_socket env) SOL_SOCKET SO_SNDBUF 32768
        :: SysSetsockopt (env_socket env) SOL_SOCKET SO_RCVBUF 1048576 :: l)).
  { intros l. split; simpl; auto. }
  destruct (env_bind env <? 0);
    [split; [eexists; reflexivity | split; [intros _; apply Hin|reflexivity]]|].
  destruct (env_getsockname env <? 0);
    [split; [eexists; reflexivity | split; [intros _; apply Hin|reflexivity]]|].
  destruct (negb (env_addr_len env =? SIZEOF_SOCKADDR_NL));
    [split; [eexists; reflexivity | split; [intros _; apply Hin|reflexivity]]|].
  simpl.
  destruct (negb (nl_family (env_local env) =? AF_NETLINK));
    (split; [eexists; reflexivity | split; [intros _; apply Hin|reflexivity]]).
Qed.

Lemma rtnl_open_log_prefix_witness :
  count_close 3 (open_log (rtnl_open env_sndbuf_fails handle0)) = 0%nat /\
  ~ In (SysBind 3 AF_NETLINK 0) (open_log (rtnl_open env_sndbuf_fails handle0)).
Proof.
  destruct (rtnl_open_log_prefix env_sndbuf_fails handle0) as (_ & _ & Hc).
  split; [exact Hc|].
  simpl. intros [H|[H|[]]]; discriminate.
Defined.

(** X3.  The diagnostic tells how far [rtnl_open] got: two runs that print
    the same thing have made the same number of calls.  (The three checks
    behind [getsockname] share a call count and differ in the text.) *)
Theorem rtnl_open_diag_tells_step (env1 env2 : open_env)
    (rth1 rth2 : rtnl_handle) :
  open_stderr (rtnl_open env1 rth1) = open_stderr (rtnl_open env2 rth2) ->
  length (open_log (rtnl_open env1 rth1))
  = length (open_log (rtnl_open env2 rth2)) /\
  open_status (rtnl_open env1 rth1) = open_status (rtnl_open env2 rth2).
Proof.
  unfold rtnl_open. simpl.
  destruct (env_socket env1 <? 0); [|
  destruct (env_sndbuf env1 <? 0); [|
  destruct (env_rcvbuf env1 <? 0); [|
  destruct (env_bind env1 <? 0); [|
  destruct (env_getsockname env1 <? 0); [|
  destruct (negb (env_addr_len env1 =? SIZEOF_SOCKADDR_NL)); [|
  simpl; destruct (negb (nl_family (env_local env1) =? AF_NETLINK))]]]]]];
  (destruct (env_socket env2 <? 0); [|
   destruct (env_sndbuf env2 <? 0); [|
   destruct (env_rcvbuf env2 <? 0); [|
   destruct (env_bind env2 <? 0); [|
   destruct (env_getsockname env2 <? 0); [|
   destruct (negb (env_addr_len env2 =? SIZEOF_SOCKADDR_NL)); [|
   simpl; destruct (negb (nl_family (env_local env2) =? AF_NETLINK))]]]]]]);
  simpl; intros H; try discriminate H; split; reflexivity.
Qed.

Lemma rtnl_open_diag_tells_step_witness :
  length (open_log (rtnl_open env_sndbuf_fails handle0))
  = length (open_log (rtnl_open env_sndbuf_fails
                        {| fd := 7; local := sockaddr_zero; seq := 1 |})).
Proof.
  apply (rtnl_open_diag_tells_step env_sndbuf_fails env_sndbuf_fails handle0
           {| fd := 7; local := sockaddr_zero; seq := 1 |}).
  reflexivity.
Defined.

(** X4.  [rtnl_close] after [rtnl_open], whatever the outcome of the open:
    it closes the descriptor exactly when [socket] had succeeded (also when
    a later sub-step failed and [rtnl_open] left the socket open), and the
    handle's descriptor is negative afterwards. *)
Theorem rtnl_close_after_open (env : open_env) (rth : rtnl_handle) :
  let closed := rtnl_close (open_handle (rtnl_open env rth)) in
  snd closed = (if 0 <=? env_socket env
                then [SysClose (env_socket env)] else []) /\
  fd (fst closed) < 0.
Proof.
  cbv zeta. destruct (rtnl_open_fd env rth) as [Hfd _].
  unfold rtnl_close. rewrite Hfd.
  destruct (Z.leb_spec 0 (env_socket env)); simpl; [split; [reflexivity|lia]|].
  split; [reflexivity | lia].
Qed.

(** X5.  [sockdiag_send] is given the descriptor by value: when [sendmsg]
    fails it closes the descriptor but cannot invalidate the caller's
    handle, so a following [rtnl_close] on that handle calls [close] on the
    same descriptor a second time.  After a successful send the descriptor
    is closed once, by [rtnl_close]. *)
Theorem sockdiag_send_then_close (sendmsg_ret l command : Z)
    (rth : rtnl_handle) :
  0 <= fd rth ->
  let sent := sockdiag_send sendmsg_ret l (fd rth) command in
  let log := send_log sent ++ snd (rtnl_close rth) in
  (sendmsg_ret < 0 ->
     send_status sent = EXIT_FAILURE /\ count_close (fd rth) log = 2%nat) /\
  (0 <= sendmsg_ret ->
     send_status sent = 0 /\ count_close (fd rth) log = 1%nat).
Proof.
  intros Hfd. cbv zeta. unfold sockdiag_send, rtnl_close, count_close.
  destruct (Z.leb_spec 0 (fd rth)); [|lia].
  destruct (Z.ltb_spec sendmsg_ret 0); simpl; rewrite ?Z.eqb_refl;
    split; intros; try lia; split; reflexivity.
Qed.

Lemma sockdiag_send_then_close_witness :
  count_close 3
    (send_log (sockdiag_send (-1) 5 3 1)
     ++ snd (rtnl_close {| fd := 3; local := sockaddr_zero; seq := 0 |}))
  = 2%nat.
Proof.
  destruct (sockdiag_send_then_close (-1) 5 1
              {| fd := 3; local := sockaddr_zero; seq := 0 |}) as [H _];
    [simpl; lia|].
  apply H. lia.
Defined.

(** X6.  The order and the repetition of [set_extension] calls do not
    matter: a call made twice counts once, two calls commute, and any
    rearrangement of a sequence of calls leaves the same mask.  No call
    clears a bit. *)
Theorem set_extension_order_free (a b l : Z) (ns ns' : list Z) :
  set_extension a (set_extension a l) = set_extension a l /\
  set_extension a (set_extension b l) = set_extension b (set_extension a l) /\
  (Permutation ns ns' -> set_extensions ns l = set_extensions ns' l) /\
  (forall i, Z.testbit l i = true -> Z.testbit (set_extension a l) i = true).
Proof.
  assert (Hc : forall x y m,
            set_extension x (set_extension y m)
            = set_extension y (set_extension x m)).
  { intros. unfold set_extension.
    rewrite <- !Z.lor_assoc. f_equal. apply Z.lor_comm. }
  split; [|split; [apply Hc|split]].
  - unfold set_extension. rewrite <- Z.lor_assoc. f_equal. apply Z.lor_diag.
  - intros Hp. revert l. induction Hp as [|x p q Hp IH|x y p|p q s H1 IH1 H2 IH2];
      intros m; unfold set_extensions in *; simpl.
    + reflexivity.
    + apply IH.
    + now rewrite Hc.
    + now rewrite IH1.
  - intros i Hi. unfold set_extension. rewrite Z.lor_spec, Hi. reflexivity.
Qed.

Lemma set_extension_order_free_witness :
  set_extensions [1; 3; 1] 0 = set_extensions [3; 1; 1] 0.
Proof.
  destruct (set_extension_order_free 1 3 0 [1; 3; 1] [3; 1; 1])
    as (_ & _ & Hp & _).
  apply Hp. apply perm_swap.
Defined.

(** ** [parse_rtattr] on arbitrary input *)

Lemma load_app_l n (a b : list byte) off :
  (off + n <= length a)%nat -> load n (a ++ b) off = load n a off.
Proof.
  intros H. unfold load.
  rewrite drop_app_le by lia.
  rewrite take_app_le by (rewrite length_drop; lia).
  reflexivity.
Qed.

Lemma tb_store_entry max (tb : list (option nat)) ty rta t off :
  0 <= ty ->
  tb_store max tb ty rta !! t = Some (Some off) ->
  tb !! t = Some (Some off) \/ (t = Z.to_nat ty /\ off = rta).
Proof.
  intros Hty. unfold tb_store.
  destruct (ty <=? max); [|auto].
  destruct (tb !! Z.to_nat ty) as [[x|]|] eqn:E; auto.
  destruct (Nat.eq_dec t (Z.to_nat ty)) as [->|Hne].
  - rewrite list_lookup_insert_eq by (eapply lookup_lt_Some; eassumption).
    intros [= <-]. now right.
  - rewrite list_lookup_insert_ne by lia. auto.
Qed.

Lemma rta_walk_sound max mem total fuel : forall tb rta len tb' rta' len',
  len < 2 ^ 31 ->
  Z.of_nat rta + len = total ->
  Z.of_nat rta mod 4 = 0 ->
  entries_sound mem total tb ->
  rta_walk fuel max mem tb rta len = Ret (tb', rta', len') ->
  entries_sound mem total tb' /\ length tb' = length tb.
Proof.
  induction fuel as [|fuel IH]; intros tb rta len tb' rta' len' Hl Ht Ha Hs;
    [discriminate|].
  cbn [rta_walk]. unfold SIZEOF_RTATTR.
  destruct (Z.ltb_spec len 4); [intros [= <- _ _]; now split|].
  destruct (load 2 mem rta) as [l|] eqn:El; [|discriminate].
  destruct (Z.ltb_spec l 4); [intros [= <- _ _]; now split|].
  destruct (Z.ltb_spec len l); [intros [= <- _ _]; now split|]. cbn [orb].
  destruct (load 2 mem (rta + 2)) as [ty|] eqn:Ety; [|discriminate].
  pose proof (load_bound _ _ _ _ Ety) as Hty.
  rewrite RTA_ALIGN_eq by lia.
  rewrite wrap_u_small, wrap_s_small by lia.
  intros Hw.
  assert (Hs1 : entries_sound mem total (tb_store max tb ty rta)).
  { intros t off Hlk. apply tb_store_entry in Hlk; [|lia].
    destruct Hlk as [Hlk | [-> ->]]; [now apply Hs|].
    split; [now rewrite Z2Nat.id by lia|].
    split; [exists l; split; [exact El | lia] | assumption]. }
  apply IH in Hw; [| lia | lia | lia | exact Hs1].
  destruct Hw as [Hs' Hlen]. split; [assumption|].
  now rewrite Hlen, length_tb_store.
Qed.

(** X7.  Whatever bytes [parse_rtattr] is given, with [len] an [int]: if it
    returns, the table has [max + 1] entries and every entry that is set
    points to a record that passed RTA_OK and lies inside the first [len]
    bytes, carries the entry's index as its type, and starts on a 4-byte
    boundary. *)
Theorem parse_rtattr_entries_sound (max : Z) (mem : list byte) (len : Z)
    (tb : list (option nat)) (err : list diag) :
  len < 2 ^ 31 ->
  parse_rtattr max mem len = Ret {| pr_tb := tb; pr_stderr := err |} ->
  length tb = Z.to_nat (max + 1) /\
  forall t off, tb !! t = Some (Some off) ->
    load 2 mem (off + 2) = Some (Z.of_nat t) /\
    (exists l, load 2 mem off = Some l /\ 4 <= l /\ Z.of_nat off + l <= len) /\
    (Z.of_nat off) mod 4 = 0.
Proof.
  intros Hl. unfold parse_rtattr.
  destruct (rta_walk _ _ _ _ _ _) as [[[tb' rta'] len']| |] eqn:Hw;
    try discriminate.
  intros [= <- _].
  apply (rta_walk_sound max mem len) in Hw;
    [ | lia | lia | reflexivity
      | intros t off Hlk; apply lookup_replicate in Hlk as [[=] _] ].
  destruct Hw as [Hs Hlen]. split; [|exact Hs].
  now rewrite Hlen, length_replicate.
Qed.

Lemma parse_rtattr_entries_sound_witness :
  (24 < 2 ^ 31) /\
  length [None; Some 0%nat; Some 8%nat; None] = Z.to_nat (3 + 1) /\
  load 2 (encode_rtattrs [ex_r1; ex_r2; ex_r1']) (8 + 2) = Some 2.
Proof.
  assert (Hl : 24 < 2 ^ 31) by lia.
  split; [exact Hl|].
  destruct (parse_rtattr_entries_sound 3
              (encode_rtattrs [ex_r1; ex_r2; ex_r1']) 24
              [None; Some 0%nat; Some 8%nat; None] [] Hl)
    as [Hlen Hs]; [vm_compute; reflexivity|].
  split; [exact Hlen|].
  apply (Hs 2%nat 8%nat). reflexivity.
Defined.

Lemma tb_fill_app max rs1 : forall tb rs2 off,
  tb_fill max tb (rs1 ++ rs2) off
  = tb_fill max (tb_fill max tb rs1 off) rs2
      (off + length (encode_rtattrs rs1))%nat.
Proof.
  induction rs1 as [|a rs1 IH]; intros tb rs2 off; cbn [app tb_fill].
  - unfold encode_rtattrs. simpl. now rewrite Nat.add_0_r.
  - rewrite IH, length_encode_rtattrs_cons. f_equal. lia.
Qed.

Lemma encode_rtattr_unpadded_length r :
  Z.of_nat (length (encode_rtattr_unpadded r)) = rta_len r.
Proof.
  unfold encode_rtattr_unpadded, rta_len, SIZEOF_RTATTR.
  rewrite !length_app, !length_le_split. lia.
Qed.

(** [parse_rtattr] on a region that ends right behind the value of its
    last record, whose length is no multiple of four. *)
Lemma parse_rtattr_unpadded_layout (max : Z) (rs : list rtattr) (r : rtattr) :
  Forall wf_rtattr rs -> wf_rtattr r ->
  rta_len r mod 4 <> 0 ->
  let mem := encode_rtattrs rs ++ encode_rtattr_unpadded r in
  Z.of_nat (length mem) < 2 ^ 31 ->
  parse_rtattr max mem (Z.of_nat (length mem))
  = Ret {| pr_tb := tb_fill max (replicate (Z.to_nat (max + 1)) None)
                      (rs ++ [r]) 0;
           pr_stderr := [DiagDeficit (rta_len r - RTA_ALIGN (rta_len r))
                           None] |} /\
  -4 < rta_len r - RTA_ALIGN (rta_len r) < 0.
Proof.
  intros Hrs Hr Hmod mem Hlen.
  destruct (length_encode_rtattr_align r Hr) as [Hal Hb].
  pose proof (encode_rtattr_unpadded_length r) as Hu.
  destruct Hr as [Hty Hrl].
  unfold SIZEOF_RTATTR in *.
  assert (Hale : RTA_ALIGN (rta_len r) = 4 * ((rta_len r + 3) / 4))
    by (apply RTA_ALIGN_eq; lia).
  assert (Hneg : -4 < rta_len r - RTA_ALIGN (rta_len r) < 0) by lia.
  split; [|exact Hneg].
  unfold parse_rtattr. subst mem.
  rewrite length_app in *. rewrite Nat2Z.inj_add in *.
  set (tb0 := replicate (Z.to_nat (max + 1)) None).
  set (u := encode_rtattr_unpadded r) in *.
  destruct (rta_walk_records max rs
              (S (Z.to_nat (Z.of_nat (length (encode_rtattrs rs))
                            + Z.of_nat (length u))))
              [] u tb0 (Z.of_nat (length u)) Hrs)
    as (fuel' & Hf' & Heq); try lia.
  cbn [app] in Heq. change (length (@nil byte)) with 0%nat in Heq.
  rewrite Heq. clear Heq.
  destruct fuel' as [|fuel']; [lia|].
  set (n := length (encode_rtattrs rs)) in *.
  assert (Hl0 : load 2 (encode_rtattrs rs ++ u) (0 + n) = Some (rta_len r)).
  { rewrite (load_skip _ _ 2 0) by (fold n; lia).
    unfold u, encode_rtattr_unpadded.
    rewrite load_le_split. f_equal. apply Z.mod_small. simpl. lia. }
  assert (Hl2 : load 2 (encode_rtattrs rs ++ u) (0 + n + 2)
                = Some (rta_type r)).
  { rewrite (load_skip _ _ 2 2) by (fold n; lia).
    unfold u, encode_rtattr_unpadded.
    rewrite (load_skip _ _ 2 0) by now rewrite length_le_split.
    rewrite load_le_split. f_equal. apply Z.mod_small. simpl. lia. }
  cbn [rta_walk]. unfold SIZEOF_RTATTR.
  destruct (Z.ltb_spec (Z.of_nat (length u)) 4); [lia|].
  rewrite Hl0, Hl2.
  destruct (Z.ltb_spec (rta_len r) 4); [lia|].
  destruct (Z.ltb_spec (Z.of_nat (length u)) (rta_len r)); [lia|].
  cbn [orb].
  rewrite wrap_u_small, wrap_s_small by lia.
  destruct fuel' as [|fuel'].
  { exfalso. lia. }
  cbn [rta_walk]. unfold SIZEOF_RTATTR.
  destruct (Z.ltb_spec (Z.of_nat (length u) - RTA_ALIGN (rta_len r)) 4);
    [|lia].
  destruct (Z.eqb_spec (Z.of_nat (length u) - RTA_ALIGN (rta_len r)) 0);
    [lia|].
  rewrite load_short by (rewrite ?length_app; fold n; lia).
  rewrite Hu. f_equal. f_equal.
  rewrite tb_fill_app. cbn [tb_fill]. reflexivity.
Qed.

Lemma first_loc_In rs : forall x off,
  In x rs -> exists loc, first_loc (rta_type x) rs off = Some loc.
Proof.
  induction rs as [|a rs IH]; intros x off Hin; [destruct Hin|].
  cbn [first_loc].
  destruct (Z.eqb_spec (rta_type a) (rta_type x)); [eauto|].
  destruct Hin as [->|Hin]; [contradiction | now apply IH].
Qed.

(** X8.  A region that ends right behind the value of its last record,
    when that record's length is no multiple of four.  Every record is
    valid and [parse_rtattr] enters them all: each entry up to [max] holds
    the location of the first record of its type, the last record
    included (when its type is new, its entry holds its offset), so the
    entry of every record's type is set.  Still the "Deficit" line is
    printed, with a count between -3 and -1, because RTA_NEXT steps over
    padding that is not there; the length it prints is read behind the
    region. *)
Theorem parse_rtattr_unpadded_last (max : Z) (rs : list rtattr) (r : rtattr) :
  Forall wf_rtattr rs -> wf_rtattr r ->
  rta_len r mod 4 <> 0 ->
  let mem := encode_rtattrs rs ++ encode_rtattr_unpadded r in
  Z.of_nat (length mem) < 2 ^ 31 ->
  exists tb,
    parse_rtattr max mem (Z.of_nat (length mem))
    = Ret {| pr_tb := tb;
             pr_stderr := [DiagDeficit (rta_len r - RTA_ALIGN (rta_len r))
                             None] |} /\
    length tb = Z.to_nat (max + 1) /\
    (forall t, 0 <= t <= max ->
       tb !! Z.to_nat t = Some (first_loc t (rs ++ [r]) 0)) /\
    (rta_type r <= max ->
     Forall (fun x => rta_type x <> rta_type r) rs ->
     tb !! Z.to_nat (rta_type r) = Some (Some (length (encode_rtattrs rs)))) /\
    (forall x, In x (rs ++ [r]) -> rta_type x <= max ->
       exists loc, tb !! Z.to_nat (rta_type x) = Some (Some loc)) /\
    -4 < rta_len r - RTA_ALIGN (rta_len r) < 0.
Proof.
  intros Hrs Hr Hmod mem Hlen.
  destruct (parse_rtattr_unpadded_layout max rs r Hrs Hr Hmod Hlen)
    as [Hp Hneg].
  assert (Hwf : Forall wf_rtattr (rs ++ [r])).
  { apply Forall_app. split; [assumption | now constructor]. }
  assert (Hall : forall t, 0 <= t <= max ->
            tb_fill max (replicate (Z.to_nat (max + 1)) None) (rs ++ [r]) 0
              !! Z.to_nat t = Some (first_loc t (rs ++ [r]) 0)).
  { intros t Ht. rewrite tb_fill_lookup by assumption.
    rewrite lookup_replicate_2 by lia. reflexivity. }
  eexists. split; [exact Hp|].
  split; [now rewrite length_tb_fill, length_replicate|].
  split; [exact Hall|].
  split; [|split; [|exact Hneg]].
  - intros Hmax Hnew. destruct Hr as [Hty _].
    rewrite Hall by lia. now rewrite first_loc_app.
  - intros x Hin Hmax.
    assert (Hx : 0 <= rta_type x).
    { rewrite Forall_forall in Hwf. apply list_elem_of_In in Hin.
      destruct (Hwf x Hin) as [Hty _]. lia. }
    destruct (first_loc_In (rs ++ [r]) x 0%nat Hin) as [loc Hloc].
    exists loc. rewrite Hall by lia. now rewrite Hloc.
Qed.

Lemma parse_rtattr_unpadded_last_witness :
  exists tb,
    parse_rtattr 3 (encode_rtattrs [ex_r2] ++ encode_rtattr_unpadded ex_r1) 13
    = Ret {| pr_tb := tb; pr_stderr := [DiagDeficit (-3) None] |} /\
    tb !! 1%nat = Some (Some 8%nat) /\ tb !! 2%nat = Some (Some 0%nat).
Proof.
  destruct (parse_rtattr_unpadded_last 3 [ex_r2] ex_r1)
    as (tb & Hp & _ & Hall & Hlast & _);
    [solve_msgs | solve_msgs | vm_compute; discriminate
    | vm_compute; reflexivity | ].
  exists tb. split; [exact Hp|]. split.
  - apply Hlast; [simpl; lia | solve_msgs].
  - apply (Hall 2). lia.
Defined.

(** ** [rtnl_dump]: retried receives *)

Lemma same_run_refl st : same_run st st.
Proof. now repeat split. Qed.

Lemma same_run_trans a b c : same_run a b -> same_run b c -> same_run a c.
Proof.
  intros (H1 & H2 & H3 & H4 & H5) (G1 & G2 & G3 & G4 & G5).
  repeat split; congruence.
Qed.

Lemma same_run_say d d' st st' :
  blank_errno d = blank_errno d' -> same_run st st' ->
  same_run (say d st) (say d' st').
Proof.
  intros Hd (H1 & H2 & H3 & H4 & H5). unfold same_run, say. simpl.
  repeat split; try assumption.
  rewrite !map_app. simpl. now rewrite H5, Hd.
Qed.

Lemma same_run_set_errno e st : same_run (set_errno e st) st.
Proof. now repeat split. Qed.

Lemma same_run_store data st st' :
  same_run st st' -> same_run (store_buf data st) (store_buf data st').
Proof.
  intros (H1 & H2 & H3 & H4 & H5). unfold same_run, store_buf. simpl.
  repeat split; congruence.
Qed.

Lemma same_run_reset st st' :
  same_run st st' -> same_run (reset_h st) (reset_h st').
Proof.
  intros (H1 & H2 & H3 & H4 & H5). unfold same_run, reset_h. simpl.
  repeat split; congruence.
Qed.

Lemma same_run_intr_step flags st st' :
  same_run st st' -> same_run (intr_step flags st) (intr_step flags st').
Proof.
  intros H. unfold intr_step. destruct (_ =? 0); [assumption|].
  now apply same_run_say.
Qed.

(** The walk does not look at [errno], except to print it. *)
Lemma nlmsg_walk_same fuel : forall msglen st st',
  same_run st st' ->
  fst (nlmsg_walk fuel msglen st) = fst (nlmsg_walk fuel msglen st') /\
  same_run (snd (nlmsg_walk fuel msglen st)) (snd (nlmsg_walk fuel msglen st')).
Proof.
  induction fuel as [|fuel IH]; intros msglen st st' Hs; [now split|].
  cbn [nlmsg_walk].
  pose proof Hs as (Hb & Hh & _).
  rewrite <- Hb, <- Hh.
  destruct (_ <? _); [now split|].
  destruct (load 4 (ds_buf st) (ds_h st)) as [len|]; [|now split].
  destruct (_ || _); [now split|].
  destruct (load 2 (ds_buf st) (ds_h st + 6)) as [flags|]; [|now split].
  destruct (load 2 (ds_buf st) (ds_h st + 4)) as [type|]; [|now split].
  fold (intr_step flags st). fold (intr_step flags st').
  pose proof (same_run_intr_step flags st st' Hs) as Hs1.
  destruct (intr_step_handled flags st) as (Hb1 & Hh1 & _).
  destruct (intr_step_handled flags st') as (Hb2 & Hh2 & _).
  destruct (_ =? NLMSG_DONE).
  { split; [reflexivity|]. destruct Hs1 as (G1 & G2 & G3 & G4 & G5).
    unfold same_run, set_found_done. simpl. now repeat split. }
  destruct (_ =? NLMSG_ERROR).
  { destruct (_ <? _); (split; [reflexivity|]); now apply same_run_say. }
  rewrite Hb1, Hh1, Hb2, Hh2, <- Hb, <- Hh.
  destruct (msg_at _ _ _) as [m|]; [|now split].
  apply IH. destruct Hs1 as (G1 & G2 & G3 & G4 & G5).
  unfold same_run, call_handler. simpl. repeat split; congruence.
Qed.

Lemma rtnl_dump_again_same evs : forall st st',
  same_run st st' ->
  dr_outcome (rtnl_dump_again evs st) = dr_outcome (rtnl_dump_again evs st') /\
  dr_rest (rtnl_dump_again evs st) = dr_rest (rtnl_dump_again evs st') /\
  same_run (dr_state (rtnl_dump_again evs st))
           (dr_state (rtnl_dump_again evs st')).
Proof.
  induction evs as [|[e|data flags] evs IH]; intros st st' Hs;
    cbn [rtnl_dump_again].
  - split; [reflexivity | split; [reflexivity | exact Hs]].
  - assert (Hs1 : same_run (set_errno e st) (set_errno e st')).
    { eapply same_run_trans; [apply same_run_set_errno|].
      eapply same_run_trans; [exact Hs|].
      destruct (same_run_set_errno e st') as (G1 & G2 & G3 & G4 & G5).
      repeat split; congruence. }
    destruct (_ || _); [now apply IH|].
    cbn [dr_outcome dr_rest dr_state].
    split; [reflexivity | split; [reflexivity | now apply same_run_say]].
  - destruct (_ =? 0).
    { cbn [dr_outcome dr_rest dr_state].
      split; [reflexivity | split; [reflexivity | now apply same_run_say]]. }
    destruct (nlmsg_walk_same
                (S (Z.to_nat (wrap_s 32 (Z.of_nat (length (take BUFSIZE data))))))
                (wrap_s 32 (Z.of_nat (length (take BUFSIZE data))))
                (store_buf (take BUFSIZE data) st)
                (store_buf (take BUFSIZE data) st')
                (same_run_store _ _ _ Hs)) as [He Hw].
    destruct (nlmsg_walk _ _ (store_buf _ st)) as [x1 s1].
    destruct (nlmsg_walk _ _ (store_buf _ st')) as [x2 s2].
    cbn [fst snd] in He, Hw. subst x2.
    destruct x1; cbn [dr_outcome dr_rest dr_state];
      try (split; [reflexivity | split; [reflexivity | exact Hw]]).
    destruct (negb _); [apply IH; now apply same_run_say|].
    pose proof Hw as (_ & _ & Hfd & _). rewrite <- Hfd.
    destruct (negb _); [apply IH; now apply same_run_reset|].
    split; [reflexivity | split; [reflexivity | exact Hw]].
Qed.

Lemma rtnl_dump_again_drop_retries evs : forall st,
  dr_outcome (rtnl_dump_again evs st)
  = dr_outcome (rtnl_dump_again (drop_retries evs) st) /\
  drop_retries (dr_rest (rtnl_dump_again evs st))
  = dr_rest (rtnl_dump_again (drop_retries evs) st) /\
  same_run (dr_state (rtnl_dump_again evs st))
           (dr_state (rtnl_dump_again (drop_retries evs) st)).
Proof.
  induction evs as [|[e|data flags] evs IH]; intros st.
  - cbn. split; [reflexivity | split; [reflexivity | apply same_run_refl]].
  - cbn [rtnl_dump_again drop_retries List.filter is_retry].
    fold (drop_retries evs).
    destruct ((e =? EINTR) || (e =? EAGAIN)) eqn:Er; cbn [negb].
    + destruct (IH (set_errno e st)) as (Ho & Hr & Hs).
      destruct (rtnl_dump_again_same (drop_retries evs) (set_errno e st) st
                  (same_run_set_errno e st)) as (Ho' & Hr' & Hs').
      split; [congruence|]. split; [congruence|].
      eapply same_run_trans; eassumption.
    + cbn [rtnl_dump_again]. rewrite Er.
      cbn [dr_outcome dr_rest dr_state].
      split; [reflexivity | split; [reflexivity | apply same_run_refl]].
  - cbn [rtnl_dump_again drop_retries List.filter is_retry negb].
    fold (drop_retries evs).
    destruct (_ =? 0);
      [cbn [dr_outcome dr_rest dr_state];
       split; [reflexivity | split; [reflexivity | apply same_run_refl]]|].
    destruct (nlmsg_walk _ _ _) as [[| s | |] s1];
      cbn [dr_outcome dr_rest dr_state];
      try (split; [reflexivity | split; [reflexivity | apply same_run_refl]]).
    destruct (negb _); [apply IH|].
    destruct (negb _); [apply IH|].
    split; [reflexivity | split; [reflexivity | apply same_run_refl]].
Qed.

(** X9.  Receives that fail with EINTR or EAGAIN are invisible, and so is
    the value [errno] has at entry: the run on the receives without the
    retried ones, entered with any [errno], ends the same way, with the
    same handler calls and the same lines on stderr up to the [errno] that
    a [perror] line shows. *)
Theorem rtnl_dump_retries_invisible (errno0 errno1 : Z)
    (evs : list recv_event) :
  let r := rtnl_dump errno0 evs in
  let r' := rtnl_dump errno1 (drop_retries evs) in
  dr_outcome r = dr_outcome r' /\
  ds_calls (dr_state r) = ds_calls (dr_state r') /\
  map blank_errno (ds_stderr (dr_state r))
  = map blank_errno (ds_stderr (dr_state r')) /\
  drop_retries (dr_rest r) = dr_rest r'.
Proof.
  cbv zeta. unfold rtnl_dump.
  destruct (rtnl_dump_again_drop_retries evs (dump_init errno0))
    as (Ho & Hr & Hs).
  destruct (rtnl_dump_again_same (drop_retries evs) (dump_init errno0)
              (dump_init errno1)) as (Ho' & Hr' & Hs').
  { unfold same_run. repeat split. }
  pose proof (same_run_trans _ _ _ Hs Hs') as (_ & _ & _ & Hc & He).
  repeat split; congruence.
Qed.

(** ** [rtnl_dump]: how runs end *)

(** X10.  After any stream of data messages, a receive that fails with an
    errno other than EINTR and EAGAIN ends the dump: [rtnl_dump] prints the
    receive error with that errno and returns [EXIT_FAILURE]; the handler
    calls made before stand, and no further receive is made. *)
Theorem rtnl_dump_receive_error (errno0 e : Z) (evs more : list recv_event)
    (ms : list nlmsg) :
  data_stream evs ms ->
  e <> EINTR -> e <> EAGAIN ->
  let r := rtnl_dump errno0 (evs ++ RecvFail e :: more) in
  dr_outcome r = Returned EXIT_FAILURE /\
  ds_calls (dr_state r) = ms /\
  ds_stderr (dr_state r) = intr_diags ms ++ [DiagRecvError e] /\
  dr_rest r = more.
Proof.
  intros Hs H1 H2 r. subst r. unfold rtnl_dump.
  destruct (dump_init_start errno0) as (Hh0 & Hf0 & Hc0 & Hd0).
  destruct (dump_data_stream evs ms Hs (dump_init errno0)
              (RecvFail e :: more) Hh0 Hf0)
    as (st' & Heq & _ & _ & Hc & Hd).
  rewrite Heq. cbn [rtnl_dump_again].
  destruct (Z.eqb_spec e EINTR); [contradiction|].
  destruct (Z.eqb_spec e EAGAIN); [contradiction|].
  cbn [orb dr_outcome dr_state dr_rest say set_errno ds_calls ds_stderr].
  rewrite Hc, Hd, Hc0, Hd0. repeat split.
Qed.

Lemma rtnl_dump_receive_error_witness :
  data_stream [RecvData (encode_nlmsgs [ex_d1]) 0; RecvFail EINTR] [ex_d1] /\
  dr_outcome
    (rtnl_dump 0 ([RecvData (encode_nlmsgs [ex_d1]) 0; RecvFail EINTR]
                  ++ [RecvFail 104]))
  = Returned EXIT_FAILURE /\
  ds_stderr (dr_state
    (rtnl_dump 0 ([RecvData (encode_nlmsgs [ex_d1]) 0; RecvFail EINTR]
                  ++ [RecvFail 104])))
  = intr_diags [ex_d1] ++ [DiagRecvError 104].
Proof.
  split; [exact ex_stream|].
  destruct (rtnl_dump_receive_error 0 104
              [RecvData (encode_nlmsgs [ex_d1]) 0; RecvFail EINTR] [] [ex_d1])
    as (Ho & _ & Hd & _);
    [exact ex_stream | discriminate | discriminate | ].
  split; [exact Ho | exact Hd].
Defined.

(** X11.  After any stream of data messages, a receive of zero bytes ends
    the dump: [rtnl_dump] prints "EOF on netlink" and returns
    [EXIT_FAILURE], whatever the transport flags of that receive are. *)
Theorem rtnl_dump_eof (errno0 flags : Z) (evs more : list recv_event)
    (ms : list nlmsg) :
  data_stream evs ms ->
  let r := rtnl_dump errno0 (evs ++ RecvData [] flags :: more) in
  dr_outcome r = Returned EXIT_FAILURE /\
  ds_calls (dr_state r) = ms /\
  ds_stderr (dr_state r) = intr_diags ms ++ [DiagEOF] /\
  dr_rest r = more.
Proof.
  intros Hs r. subst r. unfold rtnl_dump.
  destruct (dump_init_start errno0) as (Hh0 & Hf0 & Hc0 & Hd0).
  destruct (dump_data_stream evs ms Hs (dump_init errno0)
              (RecvData [] flags :: more) Hh0 Hf0)
    as (st' & Heq & _ & _ & Hc & Hd).
  rewrite Heq. cbn [rtnl_dump_again].
  rewrite take_nil.
  replace (wrap_s 32 (Z.of_nat (length (@nil byte))) =? 0) with true
    by reflexivity.
  cbn [dr_outcome dr_state dr_rest say ds_calls ds_stderr].
  rewrite Hc, Hd, Hc0, Hd0. repeat split.
Qed.

Lemma rtnl_dump_eof_witness :
  data_stream [RecvData (encode_nlmsgs [ex_d1]) 0; RecvFail EINTR] [ex_d1] /\
  dr_outcome
    (rtnl_dump 0 ([RecvData (encode_nlmsgs [ex_d1]) 0; RecvFail EINTR]
                  ++ [RecvData [] 0]))
  = Returned EXIT_FAILURE.
Proof.
  split; [exact ex_stream|].
  destruct (rtnl_dump_eof 0 0
              [RecvData (encode_nlmsgs [ex_d1]) 0; RecvFail EINTR] [] [ex_d1])
    as (Ho & _); [exact ex_stream|].
  exact Ho.
Defined.

(** X12.  As long as no "done" message arrives, [rtnl_dump] does not
    return: after a stream of data messages, each handed to the handler, it
    waits in [recvmsg] for the next datagram. *)
Theorem rtnl_dump_waits_for_done (errno0 : Z) (evs : list recv_event)
    (ms : list nlmsg) :
  data_stream evs ms ->
  let r := rtnl_dump errno0 evs in
  dr_outcome r = Blocked /\
  ds_calls (dr_state r) = ms /\
  ds_found_done (dr_state r) = false.
Proof.
  intros Hs r. subst r. unfold rtnl_dump.
  destruct (dump_init_start errno0) as (Hh0 & Hf0 & Hc0 & Hd0).
  destruct (dump_data_stream evs ms Hs (dump_init errno0) [] Hh0 Hf0)
    as (st' & Heq & _ & Hfd & Hc & Hd).
  rewrite app_nil_r in Heq. rewrite Heq. cbn [rtnl_dump_again dr_outcome dr_state].
  rewrite Hc, Hc0. repeat split. exact Hfd.
Qed.

Lemma rtnl_dump_waits_for_done_witness :
  data_stream [RecvData (encode_nlmsgs [ex_d1]) 0; RecvFail EINTR] [ex_d1] /\
  dr_outcome
    (rtnl_dump 0 [RecvData (encode_nlmsgs [ex_d1]) 0; RecvFail EINTR])
  = Blocked.
Proof.
  split; [exact ex_stream|].
  destruct (rtnl_dump_waits_for_done 0
              [RecvData (encode_nlmsgs [ex_d1]) 0; RecvFail EINTR] [ex_d1])
    as (Ho & _); [exact ex_stream|].
  exact Ho.
Defined.

(** X13.  The "dump interrupted" flag only warns: in a stream that ends
    with "done", [rtnl_dump] prints one "Dump interrupted" line for every
    message that carries the flag, the "done" message included, prints
    nothing else, and still returns [EXIT_SUCCESS]. *)
Theorem rtnl_dump_interrupted_warns (errno0 : Z) (evs more : list recv_event)
    (ms pre : list nlmsg) (d : nlmsg) (flags : Z) :
  data_stream evs ms ->
  Forall data_msg pre ->
  wf_nlmsg d -> nlmsg_type d = NLMSG_DONE ->
  (length (encode_nlmsgs (pre ++ [d])) <= BUFSIZE)%nat ->
  Z.land flags MSG_TRUNC = 0 ->
  let r := rtnl_dump errno0
             (evs ++ RecvData (encode_nlmsgs (pre ++ [d])) flags :: more) in
  dr_outcome r = Returned EXIT_SUCCESS /\
  ds_stderr (dr_state r) = intr_diags (ms ++ pre ++ [d]) /\
  length (ds_stderr (dr_state r))
  = length (List.filter
              (fun m => negb (Z.land (nlmsg_flags m) NLM_F_DUMP_INTR =? 0))
              (ms ++ pre ++ [d])).
Proof.
  intros Hs Hpre Hwf Hd Hlen Hfl r.
  assert (Hst : dr_outcome r = Returned EXIT_SUCCESS /\
                ds_stderr (dr_state r) = intr_diags (ms ++ pre ++ [d])).
  { subst r. unfold rtnl_dump.
    destruct (dump_init_start errno0) as (Hh0 & Hf0 & Hc0 & Hd0).
    destruct (dump_data_stream evs ms Hs (dump_init errno0)
                (RecvData (encode_nlmsgs (pre ++ [d])) flags :: more) Hh0 Hf0)
      as (st' & Heq & Hh & _ & Hc & Hde).
    rewrite Heq. rewrite encode_nlmsgs_snoc in *.
    change (encode_nlmsgs []) with (@nil byte) in *.
    destruct (dump_terminal_datagram pre d [] flags more st' Hpre Hwf Hlen Hh)
      as [Hdone _].
    destruct (Hdone Hd) as [_ Hret]. rewrite (Hret Hfl).
    cbn [dr_outcome dr_state set_found_done ds_stderr].
    split; [reflexivity|].
    rewrite ds_stderr_intr_step. cbn [handled store_buf ds_stderr].
    rewrite Hde, Hd0, !intr_diags_app. cbn [app].
    rewrite <- !app_assoc. do 2 f_equal.
    unfold intr_diags. cbn [flat_map]. now rewrite app_nil_r. }
  destruct Hst as [Ho Hde]. split; [exact Ho|]. split; [exact Hde|].
  rewrite Hde. clear. induction (ms ++ pre ++ [d]) as [|a l IH];
    [reflexivity|].
  unfold intr_diags in *. cbn [flat_map List.filter].
  rewrite length_app, IH.
  now destruct (Z.land (nlmsg_flags a) NLM_F_DUMP_INTR =? 0).
Qed.

Lemma rtnl_dump_interrupted_warns_witness :
  data_stream [RecvData (encode_nlmsgs [ex_d1]) 0; RecvFail EINTR] [ex_d1] /\
  ds_stderr (dr_state
    (rtnl_dump 0 ([RecvData (encode_nlmsgs [ex_d1]) 0; RecvFail EINTR]
                  ++ [RecvData (encode_nlmsgs ([ex_d2] ++ [ex_done_intr])) 0])))
  = [DiagDumpInterrupted].
Proof.
  split; [exact ex_stream|].
  destruct (rtnl_dump_interrupted_warns 0
              [RecvData (encode_nlmsgs [ex_d1]) 0; RecvFail EINTR] []
              [ex_d1] [ex_d2] ex_done_intr 0)
    as (_ & Hd & _);
    [exact ex_stream | solve_msgs | solve_msgs | reflexivity | solve_fits
    | reflexivity | ].
  exact Hd.
Defined.

(** ** [rtnl_dump]: what holds on every input *)

Lemma nlmsg_walk_return fuel : forall msglen st s st',
  nlmsg_walk fuel msglen st = (WalkReturn s, st') ->
  s = EXIT_FAILURE /\
  exists pre d, ds_stderr st' = pre ++ [d] /\ fatal_diag d.
Proof.
  induction fuel as [|fuel IH]; intros msglen st s st'; [discriminate|].
  cbn [nlmsg_walk].
  destruct (_ <? _); [discriminate|].
  destruct (load 4 _ _) as [len|]; [|discriminate].
  destruct (_ || _); [discriminate|].
  destruct (load 2 _ (ds_h st + 6)) as [flags|]; [|discriminate].
  destruct (load 2 _ (ds_h st + 4)) as [type|]; [|discriminate].
  destruct (_ =? NLMSG_DONE); [discriminate|].
  destruct (_ =? NLMSG_ERROR).
  { destruct (_ <? _); intros [= <- <-]; (split; [reflexivity|]);
      eexists _, _; (split; [reflexivity|]); reflexivity. }
  destruct (msg_at _ _ _); [|discriminate].
  apply IH.
Qed.

Lemma rtnl_dump_again_end evs : forall st,
  let r := rtnl_dump_again evs st in
  (forall s, dr_outcome r = Returned s ->
     s = EXIT_SUCCESS \/ s = EXIT_FAILURE) /\
  (dr_outcome r = Returned EXIT_SUCCESS -> ds_found_done (dr_state r) = true) /\
  (dr_outcome r = Returned EXIT_FAILURE ->
     exists pre d, ds_stderr (dr_state r) = pre ++ [d] /\ fatal_diag d).
Proof.
  induction evs as [|[e|data flags] evs IH]; intros st; cbv zeta;
    cbn [rtnl_dump_again].
  - cbn. repeat split; discriminate.
  - destruct (_ || _); [apply IH|].
    cbn [dr_outcome dr_state say ds_stderr].
    split; [intros s [= <-]; now right|].
    split; [discriminate|]. intros _. eexists _, _. now split.
  - destruct (_ =? 0).
    { cbn [dr_outcome dr_state say ds_stderr].
      split; [intros s [= <-]; now right|].
      split; [discriminate|]. intros _. eexists _, _. now split. }
    destruct (nlmsg_walk _ _ _) as [[| s | |] st'] eqn:Hw;
      cbn [dr_outcome dr_state].
    + destruct (negb _); [apply IH|].
      destruct (ds_found_done st') eqn:Hfd; cbn [negb]; [|apply IH].
      cbn [dr_outcome dr_state].
      split; [intros s [= <-]; now left|].
      split; [intros _; exact Hfd | discriminate].
    + apply nlmsg_walk_return in Hw as [-> Hd].
      split; [intros s [= <-]; now right|].
      split; [discriminate | intros _; exact Hd].
    + repeat split; discriminate.
    + repeat split; discriminate.
Qed.

(** X14.  On every sequence of receives: when [rtnl_dump] returns, the
    status is [EXIT_SUCCESS] or [EXIT_FAILURE]; it reports success only
    after a walk has met a "done" message; and with a failure the last line
    on stderr states the cause (receive error, EOF, truncated error
    message, or the answer of the kernel). *)
Theorem rtnl_dump_end_states (errno0 : Z) (evs : list recv_event) :
  let r := rtnl_dump errno0 evs in
  (forall s, dr_outcome r = Returned s ->
     s = EXIT_SUCCESS \/ s = EXIT_FAILURE) /\
  (dr_outcome r = Returned EXIT_SUCCESS -> ds_found_done (dr_state r) = true) /\
  (dr_outcome r = Returned EXIT_FAILURE ->
     exists pre d, ds_stderr (dr_state r) = pre ++ [d] /\ fatal_diag d).
Proof. apply rtnl_dump_again_end. Qed.

Lemma rtnl_dump_end_states_witness :
  ds_found_done (dr_state
    (rtnl_dump 0 [RecvData (encode_nlmsgs [ex_d1; ex_done]) 0])) = true.
Proof.
  destruct (rtnl_dump_end_states 0
              [RecvData (encode_nlmsgs [ex_d1; ex_done]) 0]) as (_ & H & _).
  apply H. vm_compute. reflexivity.
Defined.

(** The walk leaves the buffer as it is. *)
Lemma nlmsg_walk_buf fuel : forall msglen st,
  ds_buf (snd (nlmsg_walk fuel msglen st)) = ds_buf st.
Proof.
  induction fuel as [|fuel IH]; intros msglen st; [reflexivity|].
  cbn [nlmsg_walk].
  destruct (_ <? _); [reflexivity|].
  destruct (load 4 _ _) as [len|]; [|reflexivity].
  destruct (_ || _); [reflexivity|].
  destruct (load 2 _ (ds_h st + 6)) as [flags|]; [|reflexivity].
  destruct (load 2 _ (ds_h st + 4)) as [type|]; [|reflexivity].
  fold (intr_step flags st).
  destruct (intr_step_handled flags st) as (Hb & _).
  destruct (_ =? NLMSG_DONE); [exact Hb|].
  destruct (_ =? NLMSG_ERROR); [destruct (_ <? _); exact Hb|].
  destruct (msg_at _ _ _); [|exact Hb].
  rewrite IH. exact Hb.
Qed.

(** A walk whose [msglen] bytes from [h] on lie inside the buffer reads
    inside the buffer. *)
Lemma nlmsg_walk_in_bounds fuel : forall msglen st,
  msglen < 2 ^ 31 ->
  Z.of_nat (ds_h st) + msglen <= Z.of_nat (length (ds_buf st)) ->
  fst (nlmsg_walk fuel msglen st) <> WalkFault.
Proof.
  induction fuel as [|fuel IH]; intros msglen st Hm Hb; [discriminate|].
  cbn [nlmsg_walk]. unfold SIZEOF_NLMSGHDR.
  destruct (Z.ltb_spec msglen 16); [discriminate|].
  destruct (load_inside 4 (ds_buf st) (ds_h st) ltac:(lia)) as [len El].
  destruct (load_inside 2 (ds_buf st) (ds_h st + 6) ltac:(lia)) as [fl Ef].
  destruct (load_inside 2 (ds_buf st) (ds_h st + 4) ltac:(lia)) as [ty Et].
  destruct (load_inside 4 (ds_buf st) (ds_h st + 8) ltac:(lia)) as [sq Es].
  destruct (load_inside 4 (ds_buf st) (ds_h st + 12) ltac:(lia)) as [pd Ep].
  rewrite El, Ef, Et.
  rewrite wrap_u_small by lia.
  destruct (Z.ltb_spec len 16); [discriminate|].
  destruct (Z.ltb_spec msglen len); [discriminate|]. cbn [orb].
  fold (intr_step fl st).
  destruct (intr_step_handled fl st) as (Hb1 & Hh1 & _).
  destruct (_ =? NLMSG_DONE); [discriminate|].
  destruct (_ =? NLMSG_ERROR); [now destruct (_ <? _)|].
  unfold msg_at. rewrite Hb1, Hh1, Et, Ef, Es, Ep. cbv [mbind option_bind].
  rewrite NLMSG_ALIGN_eq by lia. rewrite wrap_s_small by lia.
  apply IH; [lia|].
  cbn [call_handler ds_h ds_buf]. rewrite Hb1. lia.
Qed.

Lemma length_store_buf data st :
  (length data <= length (ds_buf st))%nat ->
  length (ds_buf (store_buf data st)) = length (ds_buf st).
Proof.
  intros H. unfold store_buf. cbn [ds_buf].
  rewrite length_app, length_drop. lia.
Qed.

Lemma rtnl_dump_again_in_bounds evs : forall st,
  Forall untruncated evs ->
  ds_h st = 0%nat -> Z.of_nat (length (ds_buf st)) = 32768 ->
  dr_outcome (rtnl_dump_again evs st) <> Faulted.
Proof.
  induction evs as [|[e|data flags] evs IH]; intros st Hu Hh Hl;
    cbn [rtnl_dump_again].
  - discriminate.
  - apply Forall_cons in Hu as [_ Hu].
    destruct (_ || _); [now apply IH | discriminate].
  - apply Forall_cons in Hu as [Hfl Hu]. cbn [untruncated] in Hfl.
    set (d := take BUFSIZE data).
    assert (Hd : Z.of_nat (length d) <= 32768).
    { pose proof BUFSIZE_val. unfold d. rewrite length_take. lia. }
    clearbody d.
    rewrite wrap_s_small by lia.
    destruct (_ =? 0); [discriminate|].
    assert (Hlen : length (ds_buf (store_buf d st)) = length (ds_buf st))
      by (apply length_store_buf; lia).
    assert (Hw : fst (nlmsg_walk (S (Z.to_nat (Z.of_nat (length d))))
                        (Z.of_nat (length d)) (store_buf d st)) <> WalkFault).
    { apply nlmsg_walk_in_bounds; [lia|].
      rewrite Hlen. cbn [store_buf ds_h]. rewrite Hh. lia. }
    pose proof (nlmsg_walk_buf (S (Z.to_nat (Z.of_nat (length d))))
                  (Z.of_nat (length d)) (store_buf d st)) as Hbuf.
    destruct (nlmsg_walk _ _ _) as [[| s | |] st'];
      cbn [fst snd] in Hw, Hbuf; cbn [dr_outcome].
    + rewrite Hfl. cbn [Z.eqb negb].
      destruct (negb _); [|discriminate].
      apply IH; [assumption | reflexivity |].
      cbn [reset_h ds_buf]. rewrite Hbuf, Hlen. exact Hl.
    + discriminate.
    + now contradiction Hw.
    + discriminate.
Qed.

(** X15.  When no receive is flagged as truncated, whatever bytes the
    datagrams hold, [rtnl_dump] reads inside its buffer only: every walk
    starts at the start of the buffer and NLMSG_OK keeps it inside the
    bytes received. *)
Theorem rtnl_dump_reads_in_bounds (errno0 : Z) (evs : list recv_event) :
  Forall untruncated evs ->
  dr_outcome (rtnl_dump errno0 evs) <> Faulted.
Proof.
  intros Hu. apply rtnl_dump_again_in_bounds; [assumption | reflexivity|].
  unfold dump_init. cbn [ds_buf]. rewrite length_replicate.
  apply BUFSIZE_val.
Qed.

Lemma rtnl_dump_reads_in_bounds_witness :
  dr_outcome
    (rtnl_dump 0 [RecvData (take 21 (encode_nlmsgs [ex_d1; ex_d2])) 0;
                  RecvFail 5])
  <> Faulted.
Proof.
  apply (rtnl_dump_reads_in_bounds 0
           [RecvData (take 21 (encode_nlmsgs [ex_d1; ex_d2])) 0; RecvFail 5]).
  repeat constructor.
Defined.


(** [recvmsg] stores the bytes that fit the buffer; the rest of a longer
    datagram never reaches the code. *)
Lemma rtnl_dump_again_take data flags evs st :
  rtnl_dump_again (RecvData data flags :: evs) st
  = rtnl_dump_again (RecvData (take BUFSIZE data) flags :: evs) st.
Proof. cbn [rtnl_dump_again]. now rewrite take_idemp. Qed.

(** A walk that starts at the end of the buffer reads behind it. *)
Lemma rtnl_dump_again_at_end data flags evs st :
  (16 <= length data <= length (ds_buf st))%nat ->
  Z.of_nat (length (ds_buf st)) = 32768 ->
  ds_h st = length (ds_buf st) ->
  rtnl_dump_again (RecvData data flags :: evs) st
  = {| dr_outcome := Faulted; dr_state := store_buf data st; dr_rest := evs |}.
Proof.
  intros Hd Hl Hh.
  assert (Hlen : length (ds_buf (store_buf data st)) = length (ds_buf st))
    by (apply length_store_buf; lia).
  assert (Hload : load 4 (ds_buf (store_buf data st)) (ds_h (store_buf data st))
                  = None).
  { apply load_short; [lia|]. rewrite Hlen. cbn [store_buf ds_h]. lia. }
  cbn [rtnl_dump_again].
  rewrite take_ge by (pose proof BUFSIZE_val; lia).
  rewrite wrap_s_small by lia.
  destruct (Z.eqb_spec (Z.of_nat (length data)) 0); [lia|].
  cbn [nlmsg_walk]. unfold SIZEOF_NLMSGHDR.
  destruct (Z.ltb_spec (Z.of_nat (length data)) 16); [lia|].
  now rewrite Hload.
Qed.

(** X16.  After a datagram that is flagged as truncated and whose data
    messages fill the buffer to its last byte, the next walk starts at the
    end of the buffer: with any further datagram of 16 bytes or more the
    first thing [rtnl_dump] does is to read a length field that lies behind
    [buf]. *)
Theorem rtnl_dump_truncated_reads_past_buf (ms : list nlmsg)
    (extra next : list byte) (flags flags' : Z) (more : list recv_event)
    (st : dump_state) :
  Forall data_msg ms ->
  length (encode_nlmsgs ms) = BUFSIZE ->
  Z.land flags MSG_TRUNC <> 0 ->
  (16 <= length next)%nat ->
  ds_h st = 0%nat -> length (ds_buf st) = BUFSIZE ->
  let r := rtnl_dump_again
             (RecvData (encode_nlmsgs ms ++ extra) flags
              :: RecvData next flags' :: more) st in
  dr_outcome r = Faulted /\
  ds_calls (dr_state r) = ds_calls st ++ ms /\
  ds_h (dr_state r) = BUFSIZE.
Proof.
  intros Hms Hlen Hfl Hnext Hh Hl r. subst r.
  pose proof BUFSIZE_val as HB.
  set (data := encode_nlmsgs ms) in *.
  set (st1 := handled ms (store_buf data st)).
  assert (Hwalk : nlmsg_walk (S (length data)) (Z.of_nat (length data))
                    (store_buf data st) = (WalkLeft, st1)).
  { destruct (nlmsg_walk_prefix ms [] st Hms Hh) as (fuel' & Hf' & Heq).
    { rewrite app_nil_r. fold data. lia. }
    rewrite app_nil_r in Heq. fold data in Heq. rewrite Heq.
    destruct fuel' as [|fuel']; [cbn [length] in Hf'; lia|].
    apply nlmsg_walk_short. cbn [length Z.of_nat]. unfold SIZEOF_NLMSGHDR. lia. }
  rewrite rtnl_dump_again_take.
  rewrite take_app_length' by (symmetry; exact Hlen).
  rewrite (rtnl_dump_again_after_walk data flags _ st st1 ltac:(lia) Hwalk).
  destruct (Z.eqb_spec (Z.land flags MSG_TRUNC) 0); [contradiction|].
  cbn [negb].
  assert (Hb1 : length (ds_buf (say DiagMessageTruncated st1)) = BUFSIZE).
  { unfold st1. cbn [say handled ds_buf].
    rewrite length_store_buf; lia. }
  assert (Hh1 : ds_h (say DiagMessageTruncated st1) = BUFSIZE).
  { unfold st1. cbn [say handled store_buf ds_h]. rewrite Hh. exact Hlen. }
  rewrite rtnl_dump_again_take.
  rewrite rtnl_dump_again_at_end;
    [ | rewrite Hb1, length_take; lia | rewrite Hb1; exact HB
      | now rewrite Hh1, Hb1 ].
  cbn [dr_outcome dr_state store_buf ds_calls ds_h].
  split; [reflexivity|]. split; [reflexivity | exact Hh1].
Qed.

Lemma rtnl_dump_truncated_reads_past_buf_witness :
  dr_outcome
    (rtnl_dump_again
       [RecvData (encode_nlmsgs (replicate (Z.to_nat 2048) ex_small)
                  ++ encode_nlmsg ex_small) MSG_TRUNC;
        RecvData (encode_nlmsgs [ex_done]) 0]
       (dump_init 0))
  = Faulted.
Proof.
  destruct (rtnl_dump_truncated_reads_past_buf
              (replicate (Z.to_nat 2048) ex_small) (encode_nlmsg ex_small)
              (encode_nlmsgs [ex_done]) MSG_TRUNC 0 [] (dump_init 0))
    as (Ho & _).
  - apply Forall_replicate. unfold data_msg, wf_nlmsg, is_data. simpl.
    unfold NLMSG_DONE, NLMSG_ERROR. lia.
  - apply Nat.eqb_eq. vm_compute. reflexivity.
  - discriminate.
  - apply Nat.leb_le. vm_compute. reflexivity.
  - reflexivity.
  - apply length_replicate.
  - exact Ho.
Defined.

(** One receive of an untruncated datagram in which data messages are
    followed by bytes on which NLMSG_OK fails. *)
Lemma dump_garbled_datagram pre tail flags evs st :
  Forall data_msg pre ->
  nlmsg_not_ok tail ->
  (0 < length (encode_nlmsgs pre ++ tail) <= BUFSIZE)%nat ->
  Z.land flags MSG_TRUNC = 0 ->
  ds_h st = 0%nat ->
  ds_found_done st = false ->
  rtnl_dump_again (RecvData (encode_nlmsgs pre ++ tail) flags :: evs) st
  = rtnl_dump_again evs
      (reset_h (handled pre (store_buf (encode_nlmsgs pre ++ tail) st))).
Proof.
  intros Hpre Hbad Hlen Hfl Hh Hfd.
  pose proof BUFSIZE_val as HB.
  destruct (nlmsg_walk_prefix pre tail st Hpre Hh) as (fuel' & Hf' & Heq);
    [lia|].
  destruct fuel' as [|fuel']; [lia|].
  assert (Hstop : nlmsg_walk (S fuel') (Z.of_nat (length tail))
                    (handled pre (store_buf (encode_nlmsgs pre ++ tail) st))
                  = (WalkLeft,
                     handled pre (store_buf (encode_nlmsgs pre ++ tail) st))).
  { cbn [nlmsg_walk]. unfold nlmsg_not_ok, SIZEOF_NLMSGHDR in *.
    destruct (Z.ltb_spec (Z.of_nat (length tail)) 16); [reflexivity|].
    destruct Hbad as [Hs | (l & Hl & Hb)]; [lia|].
    cbn [handled store_buf ds_buf ds_h]. rewrite Hh.
    rewrite <- app_assoc.
    rewrite (load_skip _ _ 4 0) by lia.
    rewrite load_app_l by lia. rewrite Hl.
    rewrite wrap_u_small by (rewrite length_app in Hlen; lia).
    destruct (Z.ltb_spec l 16); [reflexivity|].
    destruct (Z.ltb_spec (Z.of_nat (length tail)) l); [reflexivity | lia]. }
  rewrite (rtnl_dump_again_after_walk _ flags evs st
             (handled pre (store_buf (encode_nlmsgs pre ++ tail) st)));
    [ | lia | now rewrite Heq, Hstop ].
  rewrite Hfl. cbn [Z.eqb negb handled store_buf ds_found_done].
  now rewrite Hfd.
Qed.

(** X17.  Bytes at the end of an untruncated datagram on which NLMSG_OK
    fails (too few for a header, or a length field below 16 or beyond what
    was received) end the walk without a diagnostic and without a failure:
    the handler has been called on the messages in front of them, and the
    code receives again with the walk reset, as if the datagram had ended
    there. *)
Theorem rtnl_dump_skips_garbled_tail (errno0 : Z) (evs more : list recv_event)
    (ms pre : list nlmsg) (tail : list byte) (flags : Z) :
  data_stream evs ms ->
  Forall data_msg pre ->
  nlmsg_not_ok tail ->
  (0 < length (encode_nlmsgs pre ++ tail) <= BUFSIZE)%nat ->
  Z.land flags MSG_TRUNC = 0 ->
  exists st',
    rtnl_dump errno0 (evs ++ RecvData (encode_nlmsgs pre ++ tail) flags :: more)
    = rtnl_dump_again more st' /\
    ds_h st' = 0%nat /\ ds_found_done st' = false /\
    ds_calls st' = ms ++ pre /\
    ds_stderr st' = intr_diags (ms ++ pre).
Proof.
  intros Hs Hpre Hbad Hlen Hfl. unfold rtnl_dump.
  destruct (dump_init_start errno0) as (Hh0 & Hf0 & Hc0 & Hd0).
  destruct (dump_data_stream evs ms Hs (dump_init errno0)
              (RecvData (encode_nlmsgs pre ++ tail) flags :: more) Hh0 Hf0)
    as (st' & Heq & Hh & Hfd & Hc & Hd).
  rewrite Heq, dump_garbled_datagram by assumption.
  eexists. split; [reflexivity|].
  cbn [reset_h handled store_buf ds_h ds_found_done ds_calls ds_stderr].
  rewrite Hc, Hd, Hc0, Hd0, intr_diags_app. repeat split. exact Hfd.
Qed.

Lemma rtnl_dump_skips_garbled_tail_witness :
  nlmsg_not_ok [Byte.x01; Byte.x02; Byte.x03] /\
  ds_calls (dr_state
    (rtnl_dump 0 ([RecvData (encode_nlmsgs [ex_d1]) 0; RecvFail EINTR]
                  ++ [RecvData (encode_nlmsgs [ex_d2]
                                ++ [Byte.x01; Byte.x02; Byte.x03]) 0])))
  = [ex_d1; ex_d2] /\
  dr_outcome
    (rtnl_dump 0 ([RecvData (encode_nlmsgs [ex_d1]) 0; RecvFail EINTR]
                  ++ [RecvData (encode_nlmsgs [ex_d2]
                                ++ [Byte.x01; Byte.x02; Byte.x03]) 0]))
  = Blocked.
Proof.
  assert (Hbad : nlmsg_not_ok [Byte.x01; Byte.x02; Byte.x03])
    by (left; simpl; unfold SIZEOF_NLMSGHDR; lia).
  split; [exact Hbad|].
  destruct (rtnl_dump_skips_garbled_tail 0
              [RecvData (encode_nlmsgs [ex_d1]) 0; RecvFail EINTR] []
              [ex_d1] [ex_d2] [Byte.x01; Byte.x02; Byte.x03] 0)
    as (st' & Heq & _ & _ & Hc & _);
    [exact ex_stream | solve_msgs | exact Hbad
    | split; [apply Nat.ltb_lt | apply Nat.leb_le]; vm_compute; reflexivity
    | reflexivity | ].
  rewrite Heq. cbn [rtnl_dump_again dr_state dr_outcome].
  split; [exact Hc | reflexivity].
Defined.
